(** * StrictDoc: source-annotation reader, error rendering and node models

    A shallow embedding of

    - [strictdoc/backend/sdoc/error_handling.py]
      ([StrictDocSemanticError], [to_print_message]),
    - [strictdoc/backend/dsl/models/requirement.py] ([Requirement.__init__]),
    - [strictdoc/backend/sdoc/models/reference.py]
      ([ParentReqReference.__init__]),
    - [strictdoc/backend/sdoc_source_code/models/source_file_info.py],
    - [strictdoc/backend/sdoc_source_code/reader.py]
      (the marker matching automaton and the coverage computation),

    together with the properties the specification states about them.

    Conventions.  A Python [str] is a Rocq [string]; its characters are the
    code points below 256.  A Python [int] is a [Z].  [None] is [None] of an
    [option].  A raised exception is the left injection of a sum, a returned
    value the right one.  Python objects that are mutated after they have
    been stored in several containers (the markers) live in a heap and the
    containers hold references. *)

From Stdlib Require Import ZArith String Ascii List Bool Lia SpecFloat.
From stdpp Require Import gmap strings list sorting pretty.

Open Scope string_scope.
Open Scope list_scope.
Open Scope Z_scope.

(** ** Python values and exceptions *)

Module Py.

(** The exceptions the embedded code can raise.  [StrictDocSemanticError]
    carries its payload as a type parameter so that this module does not
    depend on the error class. *)
Inductive exn (E : Type) : Type :=
| SemanticError (e : E)
| AssertionError
| IndexError
| NotImplementedError
| ZeroDivisionError
| OverflowError
| ScanError (msg : string).
Arguments SemanticError {E} e.
Arguments AssertionError {E}.
Arguments IndexError {E}.
Arguments NotImplementedError {E}.
Arguments ZeroDivisionError {E}.
Arguments OverflowError {E}.
Arguments ScanError {E} msg.

(** A dynamically typed argument, as far as [isinstance(_, str)] can
    tell values apart. *)
Inductive value : Type :=
| VNone
| VStr (s : string)
| VInt (n : Z).

(** The line feed character as a string. *)
Definition NL : string := String (ascii_of_nat 10) EmptyString.

(** [str(n)] for an [int]. *)
Definition str_of_int (n : Z) : string := pretty n.

(** How an f-string renders an optional string or integer. *)
Definition fmt_opt_str (o : option string) : string :=
  match o with Some s => s | None => "None" end.

Definition fmt_opt_int (o : option Z) : string :=
  match o with Some n => str_of_int n | None => "None" end.

(** Truth value of an optional string: [None] and [""] are false. *)
Definition truthy (o : option string) : bool :=
  match o with
  | Some s => negb (String.length s =? 0)%nat
  | None => false
  end.

(** [sep.join(l)]. *)
Definition join (sep : string) (l : list string) : string :=
  String.concat sep l.

(** [repr] of a list of integers, as an f-string renders it:
    [[3, 5]]. *)
Definition repr_int_list (l : list Z) : string :=
  "[" +:+ join ", " (map str_of_int l) +:+ "]".

(** [c.isspace()] for a code point below 256. *)
Definition isspace (c : ascii) : bool :=
  let n := N_of_ascii c in
  ((9 <=? n) && (n <=? 13) || (28 <=? n) && (n <=? 32)
   || (n =? 133) || (n =? 160))%N.

(** [s.lstrip()], [s.rstrip()], [s.strip()] without argument. *)
Fixpoint lstrip (s : string) : string :=
  match s with
  | String c s' => if isspace c then lstrip s' else s
  | EmptyString => EmptyString
  end.

Fixpoint rstrip (s : string) : string :=
  match s with
  | String c s' =>
      match rstrip s' with
      | EmptyString => if isspace c then EmptyString else String c EmptyString
      | r => String c r
      end
  | EmptyString => EmptyString
  end.

Definition strip (s : string) : string := rstrip (lstrip s).

(** First and last character, when there is one. *)
Definition first_char (s : string) : option ascii :=
  match s with String c _ => Some c | EmptyString => None end.

Fixpoint last_char (s : string) : option ascii :=
  match s with
  | EmptyString => None
  | String c EmptyString => Some c
  | String _ s' => last_char s'
  end.

End Py.

(** ** [error_handling.py]: StrictDocSemanticError *)

Module ErrorHandling.

(** [StrictDocSemanticError.__init__(title, hint, example, line=None,
    col=None, filename=None)]. *)
Record StrictDocSemanticError : Type := mkError {
  title : string;
  hint : option string;
  example : option string;
  line : option Z;
  col : option Z;
  file_path : option string
}.

Import Py.

(** [to_print_message]: the message is built by successive [+=]. *)
Definition to_print_message (self : StrictDocSemanticError) : string :=
  let message := "" in
  let message :=
    message +:+ "error: could not parse file: "
            +:+ Py.fmt_opt_str (file_path self) +:+ "." +:+ NL in
  let message :=
    message +:+ "Semantic error: " +:+ title self +:+ NL in
  let message :=
    message +:+ "Location: " +:+ Py.fmt_opt_str (file_path self)
            +:+ ":" +:+ Py.fmt_opt_int (line self)
            +:+ ":" +:+ Py.fmt_opt_int (col self) in
  let message :=
    if Py.truthy (hint self)
    then message +:+ NL +:+ "Hint: " +:+ Py.fmt_opt_str (hint self)
    else message in
  let message :=
    if Py.truthy (example self)
    then message +:+ NL +:+ "Example:" +:+ NL +:+ Py.fmt_opt_str (example self)
    else message in
  message.

(** The rendering as the specification words it, for an error all of
    whose location fields are present:
    ["could not parse file: <path>. Semantic error: <title>\nLocation:
    <path>:<line>:<col>[\nHint: <hint>][\nExample:\n<example>]"]. *)
Definition spec_print_message
    (p : string) (l c : Z) (t : string) (h e : option string) : string :=
  "could not parse file: " +:+ p +:+ ". Semantic error: " +:+ t
    +:+ NL +:+ "Location: " +:+ p +:+ ":" +:+ Py.str_of_int l +:+ ":" +:+ Py.str_of_int c
    +:+ match h with Some h => NL +:+ "Hint: " +:+ h | None => "" end
    +:+ match e with Some e => NL +:+ "Example:" +:+ NL +:+ e | None => "" end.

End ErrorHandling.

(** ** [dsl/models/requirement.py]: Requirement *)

Module RequirementModel.

Section Requirement.

(** The collaborating classes are opaque here: the constructor only
    stores them. *)
Variables Node Reference SpecialField Comment Child : Type.

Record Requirement : Type := mkRequirement {
  parent : Node;
  requirement_type : string;
  uid : option string;
  level : option string;
  status : option string;
  tags : option (list string);
  references : list Reference;
  title : option string;
  statement : option string;
  rationale : option string;
  comments : list Comment;
  special_fields : list SpecialField;
  requirements : option (list Child);
  statement_multiline : option string;
  body : option string;
  rationale_multiline : option string;
  ng_level : option Z
}.

(** [x.rstrip() if x else None]. *)
Definition rstrip_or_none (x : option string) : option string :=
  if Py.truthy x then option_map Py.rstrip x else None.

(** [uid.strip() if (isinstance(uid, str) and len(uid) > 0) else None]. *)
Definition init_uid (uid : Py.value) : option string :=
  match uid with
  | Py.VStr s =>
      if (0 <? String.length s)%nat then Some (Py.strip s) else None
  | _ => None
  end.

(** [Requirement.__init__].  [assert parent] fails on a missing
    parent; the [isinstance] assertions hold by typing. *)
Definition Requirement_init {E : Type}
    (parent : option Node) (requirement_type : string)
    (statement statement_multiline : option string)
    (uid : Py.value)
    (level status : option string) (tags : option (list string))
    (references : list Reference) (title body : option string)
    (rationale rationale_multiline : option string)
    (comments : list Comment) (special_fields : list SpecialField)
    (requirements : option (list Child))
  : Py.exn E + Requirement :=
  match parent with
  | None => inl Py.AssertionError
  | Some parent =>
      inr {| parent := parent;
             requirement_type := requirement_type;
             uid := init_uid uid;
             level := level;
             status := status;
             tags := tags;
             references := references;
             title := title;
             statement := statement;
             rationale := rationale;
             comments := comments;
             special_fields := special_fields;
             requirements := requirements;
             statement_multiline := rstrip_or_none statement_multiline;
             body := rstrip_or_none body;
             rationale_multiline := rstrip_or_none rationale_multiline;
             ng_level := None |}
  end.

End Requirement.

Arguments uid {Node Reference SpecialField Comment Child} _.
Arguments Requirement_init {Node Reference SpecialField Comment Child E}.

(** The invariant of the specification: the UID is absent, or it is a
    non-empty string without leading or trailing whitespace. *)
Definition uid_ok (u : option string) : Prop :=
  match u with
  | None => True
  | Some s =>
      s <> ""
      /\ (forall c, Py.first_char s = Some c -> Py.isspace c = false)
      /\ (forall c, Py.last_char s = Some c -> Py.isspace c = false)
  end.

End RequirementModel.

(** ** [sdoc/models/reference.py]: references *)

Module ReferenceModel.

Inductive ReferenceType : Type := FILE | PARENT | CHILD | BIB_REF.

Section Reference.

(** [Node] is the class of the owning node, [MID] the type of the
    machine identifiers that [MID.create()] hands out. *)
Variables Node MID : Type.

Record ParentReqReference : Type := mkParentReqReference {
  parent : Node;
  ref_type : ReferenceType;
  ref_uid : string;
  role_uid : option string;
  mid : MID
}.

(** [ParentReqReference.__init__(parent, ref_uid, role_uid)]; the
    fresh identifier returned by [MID.create()] is an argument. *)
Definition ParentReqReference_init
    (parent : Node) (ref_uid : string) (role_uid : option string)
    (fresh_mid : MID) : ParentReqReference :=
  {| parent := parent;
     ref_type := PARENT;
     ref_uid := ref_uid;
     role_uid :=
       match role_uid with
       | Some r => if (0 <? String.length r)%nat then Some r else None
       | None => None
       end;
     mid := fresh_mid |}.

End Reference.

Arguments role_uid {Node MID} _.
Arguments ParentReqReference_init {Node MID}.

End ReferenceModel.


(** ** Python floats

    [float] is IEEE 754 binary64; the operations below are the ones
    [set_coverage_stats] uses, on the Standard Library's executable
    model of binary floating point. *)

Module PyFloat.

Definition prec : Z := 53.
Definition emax : Z := 1024.

Inductive number : Type :=
| Int (n : Z)
| Float (f : spec_float).

(** An integer as an exact (not normalised) floating-point datum. *)
Definition of_int (n : Z) : spec_float :=
  match n with
  | Z0 => S754_zero false
  | Zpos p => S754_finite false p 0
  | Zneg p => S754_finite true p 0
  end.

Definition is_infinite (f : spec_float) : bool :=
  match f with S754_infinity _ => true | _ => false end.

(** [a / b] on two [int]s: the correctly rounded quotient. *)
Definition truediv {E : Type} (a b : Z) : Py.exn E + spec_float :=
  if b =? 0 then inl Py.ZeroDivisionError
  else
    let q := SFdiv prec emax (of_int a) (of_int b) in
    if is_infinite q then inl Py.OverflowError else inr q.

(** [x * n] for a float [x] and an [int] [n] that a float represents
    exactly. *)
Definition mul_int (x : spec_float) (n : Z) : spec_float :=
  SFmul prec emax x (of_int n).

(** [m * 2^e] rounded to the nearest integer, ties to even. *)
Definition round_half_even (m e : Z) : Z :=
  if 0 <=? e then m * 2 ^ e
  else
    let d := 2 ^ (- e) in
    let q := m / d in
    let r := m mod d in
    match 2 * r ?= d with
    | Lt => q
    | Gt => q + 1
    | Eq => if Z.even q then q else q + 1
    end.

(** [round(x, 1)]: the decimal with one fractional digit nearest to the
    exact value of [x] (ties to even), converted back to the nearest
    float.  Zeros, infinities and NaN round to themselves. *)
Definition round1 {E : Type} (x : spec_float) : Py.exn E + spec_float :=
  match x with
  | S754_finite s m e =>
      let n := round_half_even (Zpos m * 10) e in
      match n with
      | Zpos p =>
          let r := SFdiv prec emax (S754_finite s p 0) (of_int 10) in
          if is_infinite r then inl Py.OverflowError else inr r
      | _ => inr (S754_zero s)
      end
  | _ => inr x
  end.

End PyFloat.

(** ** [sdoc_source_code/models]: markers and the traceability info *)

Module SourceFileInfo.

Import Py PyFloat.

(** Modelled from the spec: the marker classes of
    [models/range_marker.py] are not among the sources.  A marker is a
    LineMarker or a RangeMarker with a begin/end flag; it carries its
    requirement ids, a nodoc flag, the location of its token, and, once
    matched, the line range it covers. *)
Inductive BeginOrEnd : Type := BeginFlag | EndFlag.

Inductive MarkerClass : Type :=
| RangeMarker (begin_or_end : BeginOrEnd)
| LineMarker.

(** What [get_location] returns for a parsed object. *)
Record Location : Type := mkLocation {
  loc_line : Z;
  loc_col : Z;
  loc_filename : option string
}.

#[global] Instance BeginOrEnd_eq_dec : EqDecision BeginOrEnd.
Proof. solve_decision. Defined.

#[global] Instance MarkerClass_eq_dec : EqDecision MarkerClass.
Proof. solve_decision. Defined.

Record Marker : Type := mkMarker {
  class : MarkerClass;
  reqs : list string;
  ng_is_nodoc : bool;
  get_location : Location;
  ng_source_line_begin : option Z;
  ng_range_line_begin : option Z;
  ng_range_line_end : option Z
}.

(** [is_begin()] and [is_end()].  The coverage loop of the reader calls
    [is_begin()] on the line markers of the output list too and reads
    their range: a line marker opens the one-line range that it is. *)
Definition is_begin (m : Marker) : bool :=
  match class m with
  | RangeMarker BeginFlag => true
  | RangeMarker EndFlag => false
  | LineMarker => true
  end.

Definition is_end (m : Marker) : bool :=
  match class m with
  | RangeMarker EndFlag => true
  | _ => false
  end.

(** Attribute assignments. *)
Definition set_source_line_begin (m : Marker) (v : option Z) : Marker :=
  mkMarker (class m) (reqs m) (ng_is_nodoc m) (get_location m)
           v (ng_range_line_begin m) (ng_range_line_end m).

Definition set_range_line_begin (m : Marker) (v : option Z) : Marker :=
  mkMarker (class m) (reqs m) (ng_is_nodoc m) (get_location m)
           (ng_source_line_begin m) v (ng_range_line_end m).

Definition set_range_line_end (m : Marker) (v : option Z) : Marker :=
  mkMarker (class m) (reqs m) (ng_is_nodoc m) (get_location m)
           (ng_source_line_begin m) (ng_range_line_begin m) v.

(** A marker as the parser constructs it, before any processor ran. *)
Definition new_marker (c : MarkerClass) (ids : list string) (nodoc : bool)
    (loc : Location) : Marker :=
  mkMarker c ids nodoc loc None None None.

#[global] Instance Marker_inhabited : Inhabited Marker :=
  populate (new_marker LineMarker [] false (mkLocation 0 0 None)).

(** Marker objects are shared between the output list, the stack and the
    index, and are mutated after they were stored: they live in a heap. *)
Abbreviation ref := nat.
Abbreviation heap := (gmap nat Marker).

(** [SourceFileTraceabilityInfo].  [markers] and [ng_map_reqs_to_markers]
    are attributes that only the reader assigns: they are absent from a
    freshly constructed object. *)
Record SourceFileTraceabilityInfo : Type := mkInfo {
  parts : list ref;
  ng_map_lines_to_pragmas : gmap Z ref;
  ng_map_reqs_to_pragmas : gmap string ref;
  ng_lines_total : Z;
  ng_lines_covered : Z;
  _coverage : number;
  pragmas : list ref;
  markers : option (list ref);
  ng_map_reqs_to_markers : option (gmap string (list ref))
}.

(** [SourceFileTraceabilityInfo.__init__(parts)]. *)
Definition SourceFileTraceabilityInfo_init (parts : list ref)
  : SourceFileTraceabilityInfo :=
  {| parts := parts;
     ng_map_lines_to_pragmas := ∅;
     ng_map_reqs_to_pragmas := ∅;
     ng_lines_total := 0;
     ng_lines_covered := 0;
     _coverage := Int 0;
     pragmas := [];
     markers := None;
     ng_map_reqs_to_markers := None |}.

Definition get_coverage (self : SourceFileTraceabilityInfo) : number :=
  _coverage self.

(** [round(lines_covered / lines_total * 100, 1)]. *)
Definition coverage_percentage {E : Type} (lines_total lines_covered : Z)
  : Py.exn E + spec_float :=
  match truediv lines_covered lines_total with
  | inl e => inl e
  | inr q => round1 (mul_int q 100)
  end.

(** [set_coverage_stats(lines_total, lines_covered)]. *)
Definition set_coverage_stats {E : Type} (self : SourceFileTraceabilityInfo)
    (lines_total lines_covered : Z)
  : Py.exn E + SourceFileTraceabilityInfo :=
  match coverage_percentage lines_total lines_covered with
  | inl e => inl e
  | inr c =>
      inr {| parts := parts self;
             ng_map_lines_to_pragmas := ng_map_lines_to_pragmas self;
             ng_map_reqs_to_pragmas := ng_map_reqs_to_pragmas self;
             ng_lines_total := lines_total;
             ng_lines_covered := lines_covered;
             _coverage := Float c;
             pragmas := pragmas self;
             markers := markers self;
             ng_map_reqs_to_markers := ng_map_reqs_to_markers self |}
  end.

End SourceFileInfo.


(** ** [sdoc_source_code/reader.py] *)

Module Reader.

Import Py PyFloat ErrorHandling SourceFileInfo.

Abbreviation error := (Py.exn StrictDocSemanticError).

(** [ParseContext]. *)
Record ParseContext : Type := mkParseContext {
  lines_total : Z;
  ctx_markers : list ref;
  marker_stack : list ref;
  map_reqs_to_markers : gmap string (list ref)
}.

Definition ParseContext_init (lines_total : Z) : ParseContext :=
  mkParseContext lines_total [] [] ∅.

(** [list.pop()]: the last element and the remaining list, or nothing on
    an empty list (where Python raises [IndexError]). *)
Definition pop {A : Type} (l : list A) : option (A * list A) :=
  match last l with
  | Some x => Some (x, removelast l)
  | None => None
  end.

(** The example text of the two range errors: a triple-quoted literal,
    [lstrip]ped. *)
Definition range_example : string :=
  Py.lstrip (NL +:+ "# [REQ-001]" +:+ NL +:+ "Content..." +:+ NL
             +:+ "# [/REQ-001]" +:+ NL +:+ "        ").

Definition create_begin_end_range_reqs_mismatch_error
    (location : Location) (lhs_marker_reqs rhs_marker_reqs : list string)
  : StrictDocSemanticError :=
  let lhs_marker_reqs_str := Py.join ", " lhs_marker_reqs in
  let rhs_marker_reqs_str := Py.join ", " rhs_marker_reqs in
  mkError
    "STRICTDOC RANGE: BEGIN and END requirements mismatch"
    (Some ("STRICT RANGE marker should START and END "
           +:+ "with the same requirement(s): "
           +:+ "'" +:+ lhs_marker_reqs_str +:+ "' != '"
           +:+ rhs_marker_reqs_str +:+ "'."))
    (Some range_example)
    (Some (loc_line location))
    (Some (loc_col location))
    (loc_filename location).

Definition create_end_without_begin_error (location : Location)
  : StrictDocSemanticError :=
  mkError
    "STRICTDOC RANGE: END marker without preceding BEGIN marker"
    (Some ("STRICT RANGE shall be opened with "
           +:+ "START marker and ended with END marker."))
    (Some range_example)
    (Some (loc_line location))
    (Some (loc_col location))
    (loc_filename location).

(** [create_unmatch_range_error]: the exception that the caller raises,
    or the [AssertionError] of [assert len(unmatched_ranges) > 0]. *)
Definition create_unmatch_range_error (unmatched_ranges : list Marker)
  : error :=
  let range_locations := map get_location unmatched_ranges in
  match range_locations with
  | [] => AssertionError
  | first_location :: others =>
      let hint :=
        if (1 <? length unmatched_ranges)%nat
        then
          let range_lines := map loc_line others in
          Some ("The @sdoc keywords are also unmatched on lines: "
                +:+ Py.repr_int_list range_lines +:+ ".")
        else None in
      SemanticError
        (mkError
           "Unmatched @sdoc keyword found in source file."
           hint
           (Some ("Each @sdoc keyword must be matched with a closing keyword. "
                  +:+ "Example:" +:+ NL
                  +:+ "@sdoc[REQ-001]" +:+ NL
                  +:+ "..." +:+ NL
                  +:+ "@sdoc[/REQ-001]"))
           (Some (loc_line first_location))
           (Some (loc_col first_location))
           (loc_filename first_location))
  end.

(** [parse_context.marker_stack[-1].ng_is_nodoc], guarded by
    [len(parse_context.marker_stack) > 0]. *)
Definition top_is_nodoc (h : heap) (parse_context : ParseContext) : bool :=
  match last (marker_stack parse_context) with
  | Some top => ng_is_nodoc (h !!! top)
  | None => false
  end.

(** [parse_context.map_reqs_to_markers.setdefault(req, []).append(marker)]
    for each [req]. *)
Definition index_marker (marker : ref) (ids : list string)
    (m : gmap string (list ref)) : gmap string (list ref) :=
  foldl (fun m req => <[req := default [] (m !! req) ++ [marker]]> m) m ids.

Definition with_markers (c : ParseContext) (v : list ref) : ParseContext :=
  mkParseContext (lines_total c) v (marker_stack c) (map_reqs_to_markers c).

Definition with_stack (c : ParseContext) (v : list ref) : ParseContext :=
  mkParseContext (lines_total c) (ctx_markers c) v (map_reqs_to_markers c).

Definition with_map (c : ParseContext) (v : gmap string (list ref))
  : ParseContext :=
  mkParseContext (lines_total c) (ctx_markers c) (marker_stack c) v.

(** [range_marker_processor(marker, parse_context)]; [marker] is the
    reference of the processed object. *)
Definition range_marker_processor (marker : ref)
    (h : heap) (parse_context : ParseContext)
  : error + heap * ParseContext :=
  let location := get_location (h !!! marker) in
  let line := loc_line location in
  if ng_is_nodoc (h !!! marker) then
    if is_begin (h !!! marker) then
      inr (h, with_stack parse_context
                (marker_stack parse_context ++ [marker]))
    else if is_end (h !!! marker) then
      match pop (marker_stack parse_context) with
      | Some (current_top_marker, rest) =>
          if negb (ng_is_nodoc (h !!! current_top_marker))
             || is_end (h !!! current_top_marker)
          then inl (SemanticError
                      (create_begin_end_range_reqs_mismatch_error
                         location (reqs (h !!! current_top_marker))
                         (reqs (h !!! marker))))
          else inr (h, with_stack parse_context rest)
      | None => inl (SemanticError (create_end_without_begin_error location))
      end
    else inr (h, parse_context)
  else if top_is_nodoc h parse_context then
    (* This marker is within a "nosdoc" block, so we ignore it. *)
    inr (h, parse_context)
  else
    let parse_context :=
      with_markers parse_context (ctx_markers parse_context ++ [marker]) in
    let h := <[marker := set_source_line_begin (h !!! marker) (Some line)]> h in
    if is_begin (h !!! marker) then
      let h :=
        <[marker := set_range_line_begin (h !!! marker) (Some line)]> h in
      let parse_context :=
        with_stack parse_context (marker_stack parse_context ++ [marker]) in
      let parse_context :=
        with_map parse_context
          (index_marker marker (reqs (h !!! marker))
             (map_reqs_to_markers parse_context)) in
      inr (h, parse_context)
    else if is_end (h !!! marker) then
      match pop (marker_stack parse_context) with
      | Some (current_top_marker, rest) =>
          let parse_context := with_stack parse_context rest in
          if bool_decide (reqs (h !!! marker)
                          ≠ reqs (h !!! current_top_marker))
          then inl (SemanticError
                      (create_begin_end_range_reqs_mismatch_error
                         location (reqs (h !!! current_top_marker))
                         (reqs (h !!! marker))))
          else
            let h :=
              <[current_top_marker :=
                  set_range_line_end (h !!! current_top_marker) (Some line)]>
                h in
            let h :=
              <[marker :=
                  set_range_line_begin (h !!! marker)
                    (ng_range_line_begin (h !!! current_top_marker))]> h in
            let h :=
              <[marker := set_range_line_end (h !!! marker) (Some line)]> h in
            inr (h, parse_context)
      | None => inl (SemanticError (create_end_without_begin_error location))
      end
    else inl NotImplementedError.

(** [line_marker_processor(line_marker, parse_context)]. *)
Definition line_marker_processor (line_marker : ref)
    (h : heap) (parse_context : ParseContext)
  : error + heap * ParseContext :=
  let location := get_location (h !!! line_marker) in
  let line := loc_line location in
  if top_is_nodoc h parse_context then
    (* This marker is within a "nosdoc" block, so we ignore it. *)
    inr (h, parse_context)
  else
    let parse_context :=
      with_markers parse_context
        (ctx_markers parse_context ++ [line_marker]) in
    let h :=
      <[line_marker :=
          set_source_line_begin (h !!! line_marker) (Some line)]> h in
    let h :=
      <[line_marker :=
          set_range_line_begin (h !!! line_marker) (Some line)]> h in
    let h :=
      <[line_marker :=
          set_range_line_end (h !!! line_marker) (Some line)]> h in
    let parse_context :=
      with_map parse_context
        (index_marker line_marker (reqs (h !!! line_marker))
           (map_reqs_to_markers parse_context)) in
    inr (h, parse_context).

(** The heap after an ordinary BEGIN, an ordinary END closing [top], and
    a line marker were accepted: the attribute assignments of the
    processors, in their order. *)
Definition begin_heap (h : heap) (marker : ref) : heap :=
  let line := loc_line (get_location (h !!! marker)) in
  let h := <[marker := set_source_line_begin (h !!! marker) (Some line)]> h in
  <[marker := set_range_line_begin (h !!! marker) (Some line)]> h.

Definition end_heap (h : heap) (marker top : ref) : heap :=
  let line := loc_line (get_location (h !!! marker)) in
  let h := <[marker := set_source_line_begin (h !!! marker) (Some line)]> h in
  let h := <[top := set_range_line_end (h !!! top) (Some line)]> h in
  let h :=
    <[marker := set_range_line_begin (h !!! marker)
                  (ng_range_line_begin (h !!! top))]> h in
  <[marker := set_range_line_end (h !!! marker) (Some line)]> h.

Definition line_heap (h : heap) (marker : ref) : heap :=
  let line := loc_line (get_location (h !!! marker)) in
  let h := <[marker := set_source_line_begin (h !!! marker) (Some line)]> h in
  let h := <[marker := set_range_line_begin (h !!! marker) (Some line)]> h in
  <[marker := set_range_line_end (h !!! marker) (Some line)]> h.

(** [assert_cast(value, int)]: the value when it is an [int], an
    [AssertionError] when it is [None]. *)
Definition assert_cast_int (value : option Z) : error + Z :=
  match value with
  | Some n => inr n
  | None => inl AssertionError
  end.

(** The body of the merging loop for one range [[begin, end]]:
    [merged_ranges[-1][1]] is extended, or a new range is appended. *)
Definition merge_range (merged_ranges : list (Z * Z)) (begin end_ : Z)
  : list (Z * Z) :=
  match last merged_ranges with
  | Some (last_begin, last_end) =>
      if last_end >=? begin - 1
      then removelast merged_ranges ++ [(last_begin, Z.max last_end end_)]
      else merged_ranges ++ [(begin, end_)]
  | None => merged_ranges ++ [(begin, end_)]
  end.

(** [for marker in source_file_traceability_info.markers: ...]. *)
Fixpoint merge_markers (h : heap) (ms : list ref)
    (merged_ranges : list (Z * Z)) : error + list (Z * Z) :=
  match ms with
  | [] => inr merged_ranges
  | marker :: ms' =>
      if ng_is_nodoc (h !!! marker) then merge_markers h ms' merged_ranges
      else if negb (is_begin (h !!! marker))
      then merge_markers h ms' merged_ranges
      else
        match assert_cast_int (ng_range_line_begin (h !!! marker)) with
        | inl e => inl e
        | inr begin =>
            match assert_cast_int (ng_range_line_end (h !!! marker)) with
            | inl e => inl e
            | inr end_ =>
                merge_markers h ms' (merge_range merged_ranges begin end_)
            end
        end
  end.

(** [for merged_range in merged_ranges: coverage += ...]. *)
Definition count_coverage (merged_ranges : list (Z * Z)) : Z :=
  foldl (fun coverage merged_range =>
           coverage + (snd merged_range - fst merged_range + 1))
        0 merged_ranges.

Definition with_info_markers (i : SourceFileTraceabilityInfo)
    (v : list ref) : SourceFileTraceabilityInfo :=
  mkInfo (parts i) (ng_map_lines_to_pragmas i) (ng_map_reqs_to_pragmas i)
         (ng_lines_total i) (ng_lines_covered i) (_coverage i) (pragmas i)
         (Some v) (ng_map_reqs_to_markers i).

Definition with_info_map (i : SourceFileTraceabilityInfo)
    (v : gmap string (list ref)) : SourceFileTraceabilityInfo :=
  mkInfo (parts i) (ng_map_lines_to_pragmas i) (ng_map_reqs_to_pragmas i)
         (ng_lines_total i) (ng_lines_covered i) (_coverage i) (pragmas i)
         (markers i) (Some v).

(** [source_file_traceability_info_processor]: the end-of-input step. *)
Definition source_file_traceability_info_processor
    (source_file_traceability_info : SourceFileTraceabilityInfo)
    (h : heap) (parse_context : ParseContext)
  : error + SourceFileTraceabilityInfo :=
  if (0 <? length (marker_stack parse_context))%nat then
    inl (create_unmatch_range_error
           (map (fun r => h !!! r) (marker_stack parse_context)))
  else
    let source_file_traceability_info :=
      with_info_markers source_file_traceability_info
        (ctx_markers parse_context) in
    match merge_markers h (ctx_markers parse_context) [] with
    | inl e => inl e
    | inr merged_ranges =>
        let coverage := count_coverage merged_ranges in
        set_coverage_stats source_file_traceability_info
          (lines_total parse_context) coverage
    end.

(** The object processor that the parser calls for one part. *)
Definition process_part (h : heap) (parse_context : ParseContext)
    (part : ref) : error + heap * ParseContext :=
  match class (h !!! part) with
  | RangeMarker _ => range_marker_processor part h parse_context
  | LineMarker => line_marker_processor part h parse_context
  end.

(** The processors run over the parts in file order; the first exception
    ends the parse. *)
Fixpoint process_parts (h : heap) (parse_context : ParseContext)
    (parts : list ref) : error + heap * ParseContext :=
  match parts with
  | [] => inr (h, parse_context)
  | part :: parts' =>
      match process_part h parse_context part with
      | inl e => inl e
      | inr (h', parse_context') => process_parts h' parse_context' parts'
      end
  end.

(** The objects of a scan, in file order: object [i] is token [i]. *)
Definition heap_of (tokens : list Marker) : heap := map_seq 0%nat tokens.

Definition refs_of (tokens : list Marker) : list ref :=
  seq 0 (length tokens).

(** The matching automaton and the end-of-input step on a token
    stream: what [model_from_str] does once the text is scanned. *)
Definition process_model (tokens : list Marker) (parse_context : ParseContext)
  : error + heap * SourceFileTraceabilityInfo :=
  match process_parts (heap_of tokens) parse_context (refs_of tokens) with
  | inl e => inl e
  | inr (h, parse_context') =>
      match source_file_traceability_info_processor
              (SourceFileTraceabilityInfo_init (refs_of tokens))
              h parse_context' with
      | inl e => inl e
      | inr info =>
          inr (h, with_info_map info (map_reqs_to_markers parse_context'))
      end
  end.

Section Read.

(** Modelled from the spec: the scanner (the textX metamodel built from
    [SOURCE_FILE_GRAMMAR]) is not among the sources.  It yields, in file
    order, the marker tokens of a text, each with its location, or fails.
    [get_lines_count] of [strictdoc.helpers.string] is not among the
    sources either. *)
Variable scan : string -> option string -> error + list Marker.
Variable get_lines_count : string -> Z.

(** [SourceFileTraceabilityReader.read(input_string, file_path=None)].
    The result is the info object together with the heap of the marker
    objects it refers to. *)
Definition read (input_string : string) (file_path : option string)
  : error + heap * SourceFileTraceabilityInfo :=
  let file_size := String.length input_string in
  if (file_size =? 0)%nat then
    inr (∅, SourceFileTraceabilityInfo_init [])
  else
    let length := get_lines_count input_string in
    let parse_context := ParseContext_init length in
    match scan input_string file_path with
    | inl e => inl e
    | inr tokens => process_model tokens parse_context
    end.

End Read.

End Reader.


(** ** Sample token streams *)

Module Samples.

Import SourceFileInfo Reader.

Definition at_line (l : Z) : Location := mkLocation l 1 (Some "file.py").

Definition range_begin (ids : list string) (l : Z) : Marker :=
  new_marker (RangeMarker BeginFlag) ids false (at_line l).

Definition range_end (ids : list string) (l : Z) : Marker :=
  new_marker (RangeMarker EndFlag) ids false (at_line l).

Definition nodoc_begin (l : Z) : Marker :=
  new_marker (RangeMarker BeginFlag) [] true (at_line l).

Definition nodoc_end (l : Z) : Marker :=
  new_marker (RangeMarker EndFlag) [] true (at_line l).

Definition line_marker (ids : list string) (l : Z) : Marker :=
  new_marker LineMarker ids false (at_line l).

(** BEGIN/END for REQ-1 on lines 2-4 and for REQ-2 on lines 5-7. *)
Definition two_ranges : list Marker :=
  [range_begin ["REQ-1"] 2; range_end ["REQ-1"] 4;
   range_begin ["REQ-2"] 5; range_end ["REQ-2"] 7].

(** [REQ-1, REQ-2] closing [REQ-2, REQ-1]. *)
Definition reordered_ids : list Marker :=
  [range_begin ["REQ-2"; "REQ-1"] 3; range_end ["REQ-1"; "REQ-2"] 6].

(** A nodoc block wrapping a line marker for REQ-9. *)
Definition nodoc_block : list Marker :=
  [nodoc_begin 1; line_marker ["REQ-9"] 2; nodoc_end 3].

(** Three BEGIN markers that are never closed. *)
Definition three_open : list Marker :=
  [range_begin ["REQ-1"] 2; range_begin ["REQ-2"] 3;
   range_begin ["REQ-3"] 5].

(** A lone END marker. *)
Definition lone_end : list Marker := [range_end ["REQ-1"] 2].

(** The state of the automaton after the tokens [tokens] were processed,
    starting from a fresh context for a file of [total] lines. *)
Definition after (tokens : list Marker) (total : Z)
  : error + heap * ParseContext :=
  process_parts (heap_of tokens) (ParseContext_init total) (refs_of tokens).

(** The heap and the parse context after the tokens were processed, and
    the heap and the info object of a whole parse; the empty heap and
    fresh objects stand in when an exception was raised. *)
Definition heap_after (tokens : list Marker) (total : Z) : heap :=
  match after tokens total with
  | inr (h, _) => h
  | inl _ => ∅
  end.

Definition context_after (tokens : list Marker) (total : Z) : ParseContext :=
  match after tokens total with
  | inr (_, c) => c
  | inl _ => ParseContext_init total
  end.

Definition parsed_heap (tokens : list Marker) (total : Z) : heap :=
  match process_model tokens (ParseContext_init total) with
  | inr (h, _) => h
  | inl _ => ∅
  end.

Definition parsed_info (tokens : list Marker) (total : Z)
  : SourceFileTraceabilityInfo :=
  match process_model tokens (ParseContext_init total) with
  | inr (_, info) => info
  | inl _ => SourceFileTraceabilityInfo_init []
  end.

End Samples.


(** ** The vocabulary of the specification *)

Module Spec.

Import SourceFileInfo Reader.

(** The range that a marker contributes to the coverage: markers that are
    not nodoc, that are BEGIN markers, and that carry a resolved
    [[begin, end]] range. *)
Definition covered_range (m : Marker) : option (Z * Z) :=
  if ng_is_nodoc m then None
  else if is_begin m then
    match ng_range_line_begin m, ng_range_line_end m with
    | Some b, Some e => Some (b, e)
    | _, _ => None
    end
  else None.

Definition covered_ranges (h : heap) (ms : list ref) : list (Z * Z) :=
  omap (fun r => covered_range (h !!! r)) ms.

(** Every marker that the coverage loop looks at has a resolved range. *)
Definition resolved (h : heap) (ms : list ref) : Prop :=
  forall r, r ∈ ms ->
    ng_is_nodoc (h !!! r) = false -> is_begin (h !!! r) = true ->
    is_Some (ng_range_line_begin (h !!! r))
    /\ is_Some (ng_range_line_end (h !!! r)).

(** The merging rule in the words of the specification: if the next
    range's begin is at most the current merged end + 1, extend the
    merged end to the maximum of the two ends; otherwise start a new
    merged interval. *)
Fixpoint merge_from (current : Z * Z) (ranges : list (Z * Z))
  : list (Z * Z) :=
  match ranges with
  | [] => [current]
  | (b, e) :: ranges' =>
      if b <=? snd current + 1
      then merge_from (fst current, Z.max (snd current) e) ranges'
      else current :: merge_from (b, e) ranges'
  end.

Definition merge (ranges : list (Z * Z)) : list (Z * Z) :=
  match ranges with
  | [] => []
  | first :: ranges' => merge_from first ranges'
  end.

(** The sum of [end - begin + 1] over a list of intervals. *)
Definition covered_lines (intervals : list (Z * Z)) : Z :=
  foldr Z.add 0 (map (fun i => snd i - fst i + 1) intervals).

(** The line of the token of an object. *)
Definition line_of (h : heap) (r : ref) : Z :=
  loc_line (get_location (h !!! r)).

(** The tokens of a scan come in file order: their lines do not
    decrease. *)
Definition lines_ascending (tokens : list Marker) : Prop :=
  StronglySorted Z.le (map (fun m => loc_line (get_location m)) tokens).

(** The BEGIN marker that an END marker closes: the top of the stack at
    the moment an ordinary END marker that is not suppressed is
    processed. *)
Definition closing (h : heap) (c : ParseContext) (part : ref)
  : list (ref * ref) :=
  if ng_is_nodoc (h !!! part) then []
  else if top_is_nodoc h c then []
  else if is_end (h !!! part) then
    match last (marker_stack c) with
    | Some top => [(top, part)]
    | None => []
    end
  else [].

(** The pairs (BEGIN, END) closed during a run of the processors. *)
Fixpoint closings (h : heap) (c : ParseContext) (parts : list ref)
  : list (ref * ref) :=
  match parts with
  | [] => []
  | part :: parts' =>
      match process_part h c part with
      | inl _ => []
      | inr (h', c') => closing h c part ++ closings h' c' parts'
      end
  end.

Definition closed_by (tokens : list Marker) (total : Z) (b e : ref) : Prop :=
  (b, e) ∈ closings (heap_of tokens) (ParseContext_init total)
                    (refs_of tokens).

(** The number of markers of a class in a list of references. *)
Definition count_class (h : heap) (c : MarkerClass) (ms : list ref) : nat :=
  length (filter (fun r => class (h !!! r) = c) ms).

(** The number of ordinary (not nodoc) markers in a list of references. *)
Definition count_ordinary (h : heap) (ms : list ref) : nat :=
  length (filter (fun r => ng_is_nodoc (h !!! r) = false) ms).

(** Two objects stand for the same token. *)
Record same_token (m m' : Marker) : Prop := {
  same_class : class m = class m';
  same_reqs : reqs m = reqs m';
  same_nodoc : ng_is_nodoc m = ng_is_nodoc m';
  same_location : get_location m = get_location m'
}.

(** A BEGIN marker is resolved: its range begins at its own line and
    ends at the line of a later token among the first [k]. *)
Definition begin_resolved (h0 h : heap) (k : nat) (r : ref) : Prop :=
  exists j,
    (r < j)%nat /\ (j < k)%nat
    /\ ng_range_line_begin (h !!! r) = Some (line_of h0 r)
    /\ ng_range_line_end (h !!! r) = Some (line_of h0 j).

(** The invariant of the automaton after the first [k] objects of the
    heap [h0] of a scan were processed, [closed] being the pairs closed
    so far. *)
Record invariant (h0 : heap) (k : nat) (h : heap) (c : ParseContext)
    (closed : list (ref * ref)) : Prop := {
  inv_frozen : forall x, same_token (h !!! x) (h0 !!! x);
  inv_markers_lt : forall r, r ∈ ctx_markers c -> (r < k)%nat;
  inv_stack_lt : forall r, r ∈ marker_stack c -> (r < k)%nat;
  inv_stack_sorted : StronglySorted lt (marker_stack c);
  inv_stack_begin :
    forall r, r ∈ marker_stack c -> class (h0 !!! r) = RangeMarker BeginFlag;
  inv_stack_open :
    forall r, r ∈ marker_stack c -> ng_is_nodoc (h0 !!! r) = false ->
      r ∈ ctx_markers c
      /\ ng_range_line_begin (h !!! r) = Some (line_of h0 r);
  inv_markers_ordinary :
    forall r, r ∈ ctx_markers c -> class (h0 !!! r) <> LineMarker ->
      ng_is_nodoc (h0 !!! r) = false;
  inv_count :
    count_class h0 (RangeMarker BeginFlag) (ctx_markers c)
    = (count_class h0 (RangeMarker EndFlag) (ctx_markers c)
       + count_ordinary h0 (marker_stack c))%nat;
  inv_begin_closed :
    forall r, r ∈ ctx_markers c ->
      class (h0 !!! r) = RangeMarker BeginFlag -> r ∉ marker_stack c ->
      begin_resolved h0 h k r;
  inv_end_closed :
    forall j, j ∈ ctx_markers c ->
      class (h0 !!! j) = RangeMarker EndFlag -> exists i, (i, j) ∈ closed;
  inv_closed :
    forall i j, (i, j) ∈ closed ->
      i ∈ ctx_markers c /\ j ∈ ctx_markers c /\ (i < j)%nat
      /\ class (h0 !!! i) = RangeMarker BeginFlag
      /\ class (h0 !!! j) = RangeMarker EndFlag
      /\ (i ∉ marker_stack c)
      /\ reqs (h0 !!! i) = reqs (h0 !!! j)
      /\ ng_range_line_begin (h !!! j) = ng_range_line_begin (h !!! i)
      /\ ng_range_line_end (h !!! j) = ng_range_line_end (h !!! i)
}.

End Spec.


(** ** More of the vocabulary: index, file order, nesting *)

Module Trace.

Import SourceFileInfo Reader Spec.

(** How often a requirement id occurs in a list of ids. *)
Definition occurrences (req : string) (ids : list string) : nat :=
  length (filter (fun x => x = req) ids).

(** The entries that the accepted markers [ms] contribute under [req],
    in the order of [ms]: a BEGIN marker or a line marker once for every
    occurrence of [req] among its ids, an END marker never. *)
Definition index_entries (h : heap) (ms : list ref) (req : string)
  : list ref :=
  flat_map (fun r =>
              if is_begin (h !!! r)
              then replicate (occurrences req (reqs (h !!! r))) r
              else [])
           ms.

(** A key of the index is present exactly when it has entries. *)
Definition index_lookup (h : heap) (ms : list ref) (req : string)
  : option (list ref) :=
  match index_entries h ms req with
  | [] => None
  | l => Some l
  end.

(** Two pairs of positions are disjoint, nested or the same pair. *)
Definition well_nested (p q : ref * ref) : Prop :=
  (snd p < fst q)%nat \/ (snd q < fst p)%nat
  \/ ((fst p < fst q)%nat /\ (snd q < snd p)%nat)
  \/ ((fst q < fst p)%nat /\ (snd p < snd q)%nat)
  \/ p = q.

(** The line [x] lies in the interval [i]. *)
Definition in_interval (x : Z) (i : Z * Z) : Prop :=
  fst i <= x <= snd i.

(** Consecutive intervals of a list are apart: between the end of one
    and the begin of the next lies at least one line. *)
Fixpoint separated (intervals : list (Z * Z)) : Prop :=
  match intervals with
  | [] => True
  | i :: rest =>
      match rest with
      | [] => True
      | j :: _ => snd i + 1 < fst j
      end
      /\ separated rest
  end.

(** The merging loop of the coverage computation on a list of ranges. *)
Definition merge_all (ranges : list (Z * Z)) : list (Z * Z) :=
  foldl (fun merged_ranges r => merge_range merged_ranges (fst r) (snd r))
        [] ranges.

(** The line [x] lies in the range of a marker that counts for the
    coverage. *)
Definition covered_by (h : heap) (ms : list ref) (x : Z) : Prop :=
  Exists (in_interval x) (covered_ranges h ms).

#[global] Instance in_interval_dec (x : Z) (i : Z * Z) :
  Decision (in_interval x i).
Proof. unfold in_interval. apply _. Defined.

#[global] Instance covered_by_dec (h : heap) (ms : list ref) (x : Z) :
  Decision (covered_by h ms x).
Proof. unfold covered_by. apply _. Defined.

(** The number of lines among [first], ..., [first + n - 1] that lie in
    the range of a marker that counts for the coverage. *)
Definition count_covered (h : heap) (ms : list ref) (first : Z) (n : nat)
  : nat :=
  length (filter (covered_by h ms) (seqZ first (Z.of_nat n))).

(** The second part of the invariant of the automaton, for the heap
    [h0] of a scan, [closed] being the pairs closed so far. *)
Record trace_invariant (h0 h : heap)
    (c : ParseContext) (closed : list (ref * ref)) : Prop := {
  inv_markers_sorted : StronglySorted lt (ctx_markers c);
  inv_index :
    forall req,
      map_reqs_to_markers c !! req = index_lookup h0 (ctx_markers c) req;
  inv_untouched : forall x, x ∉ ctx_markers c -> h !!! x = h0 !!! x;
  inv_source_line :
    forall r, r ∈ ctx_markers c ->
      ng_source_line_begin (h !!! r) = Some (line_of h0 r);
  inv_line_marker :
    forall r, r ∈ ctx_markers c -> class (h0 !!! r) = LineMarker ->
      ng_range_line_begin (h !!! r) = Some (line_of h0 r)
      /\ ng_range_line_end (h !!! r) = Some (line_of h0 r);
  inv_stack_outside :
    forall p r, p ∈ closed -> r ∈ marker_stack c ->
      (r < fst p)%nat \/ (snd p < r)%nat;
  inv_nested : forall p q, p ∈ closed -> q ∈ closed -> well_nested p q;
  inv_closed_range :
    forall p, p ∈ closed ->
      ng_range_line_begin (h !!! fst p) = Some (line_of h0 (fst p))
      /\ ng_range_line_end (h !!! fst p) = Some (line_of h0 (snd p))
}.

(** The nodoc BEGIN marker that a nodoc END marker closes: the top of
    the stack at the moment the nodoc END marker is processed. *)
Definition nodoc_closing (h : heap) (c : ParseContext) (part : ref)
  : list (ref * ref) :=
  if ng_is_nodoc (h !!! part) && is_end (h !!! part) then
    match last (marker_stack c) with
    | Some top => [(top, part)]
    | None => []
    end
  else [].

(** The nodoc blocks closed during a run of the processors. *)
Fixpoint nodoc_closings (h : heap) (c : ParseContext) (parts : list ref)
  : list (ref * ref) :=
  match parts with
  | [] => []
  | part :: parts' =>
      match process_part h c part with
      | inl _ => []
      | inr (h', c') => nodoc_closing h c part ++ nodoc_closings h' c' parts'
      end
  end.

Definition nodoc_block (tokens : list Marker) (total : Z) (b e : ref)
  : Prop :=
  (b, e) ∈ nodoc_closings (heap_of tokens) (ParseContext_init total)
                          (refs_of tokens).

(** The part of the invariant of the automaton that is about nodoc
    blocks after the first [k] objects were processed, [blocks] being
    the nodoc blocks closed so far: the stack
    holds ordinary markers below nodoc markers, and no accepted marker
    lies inside a nodoc block, closed or open. *)
Record nodoc_invariant (h0 : heap) (k : nat) (c : ParseContext)
    (blocks : list (ref * ref)) : Prop := {
  inv_stack_shape :
    exists ordinary nodoc,
      marker_stack c = ordinary ++ nodoc
      /\ Forall (fun r => ng_is_nodoc (h0 !!! r) = false) ordinary
      /\ Forall (fun r => ng_is_nodoc (h0 !!! r) = true) nodoc;
  inv_open_block :
    forall r b, r ∈ ctx_markers c -> b ∈ marker_stack c ->
      ng_is_nodoc (h0 !!! b) = true -> (r < b)%nat;
  inv_closed_block :
    forall p r, p ∈ blocks -> r ∈ ctx_markers c ->
      (r < fst p)%nat \/ (snd p < r)%nat;
  inv_block_markers :
    forall p, p ∈ blocks ->
      (fst p < snd p)%nat /\ (snd p < k)%nat
      /\ ng_is_nodoc (h0 !!! fst p) = true
      /\ class (h0 !!! fst p) = RangeMarker BeginFlag
      /\ ng_is_nodoc (h0 !!! snd p) = true
      /\ class (h0 !!! snd p) = RangeMarker EndFlag
}.

End Trace.

(** ** [Requirement]: statement accessors *)

Module RequirementMethods.

Import RequirementModel.

Section Methods.

Variables Node Reference SpecialField Comment Child : Type.

Abbreviation Req :=
  (Requirement Node Reference SpecialField Comment Child).

(** [get_statement_single_or_multiline]. *)
Definition get_statement_single_or_multiline (self : Req) : option string :=
  if Py.truthy (statement _ _ _ _ _ self) then statement _ _ _ _ _ self
  else if Py.truthy (statement_multiline _ _ _ _ _ self)
  then statement_multiline _ _ _ _ _ self
  else None.

(** [get_rationale_single_or_multiline]. *)
Definition get_rationale_single_or_multiline (self : Req) : option string :=
  if Py.truthy (rationale _ _ _ _ _ self) then rationale _ _ _ _ _ self
  else if Py.truthy (rationale_multiline _ _ _ _ _ self)
  then rationale_multiline _ _ _ _ _ self
  else None.

(** [switch_to_multiline_statement]: the requirement after the call, or
    the [AssertionError] of [assert self.statement_multiline is None]. *)
Definition switch_to_multiline_statement {E : Type} (self : Req)
  : Py.exn E + Req :=
  if Py.truthy (statement _ _ _ _ _ self) then
    match statement_multiline _ _ _ _ _ self with
    | Some _ => inl Py.AssertionError
    | None =>
        inr {| parent := parent _ _ _ _ _ self;
               requirement_type := requirement_type _ _ _ _ _ self;
               uid := uid self;
               level := level _ _ _ _ _ self;
               status := status _ _ _ _ _ self;
               tags := tags _ _ _ _ _ self;
               references := references _ _ _ _ _ self;
               title := title _ _ _ _ _ self;
               statement := None;
               rationale := rationale _ _ _ _ _ self;
               comments := comments _ _ _ _ _ self;
               special_fields := special_fields _ _ _ _ _ self;
               requirements := requirements _ _ _ _ _ self;
               statement_multiline := statement _ _ _ _ _ self;
               body := body _ _ _ _ _ self;
               rationale_multiline := rationale_multiline _ _ _ _ _ self;
               ng_level := ng_level _ _ _ _ _ self |}
    end
  else inr self.

(** [has_meta]. *)
Definition has_meta (self : Req) : bool :=
  match uid self with Some _ => true | None => false end
  || match tags _ _ _ _ _ self with
     | Some t => (0 <? length t)%nat
     | None => false
     end
  || match status _ _ _ _ _ self with Some _ => true | None => false end.

End Methods.

Arguments get_statement_single_or_multiline
  {Node Reference SpecialField Comment Child} self.
Arguments get_rationale_single_or_multiline
  {Node Reference SpecialField Comment Child} self.
Arguments switch_to_multiline_statement
  {Node Reference SpecialField Comment Child E} self.
Arguments has_meta {Node Reference SpecialField Comment Child} self.

End RequirementMethods.

(** ** A larger sample *)

Module MoreSamples.

Import SourceFileInfo Reader Samples.

(** Nested ranges, a line marker, a repeated id, and a nodoc block that
    hides a line marker and a BEGIN marker. *)
Definition mixed : list Marker :=
  [range_begin ["REQ-1"] 1;
   range_begin ["REQ-2"; "REQ-2"] 2;
   line_marker ["REQ-1"] 3;
   range_end ["REQ-2"; "REQ-2"] 4;
   nodoc_begin 5;
   line_marker ["REQ-9"] 6;
   range_begin ["REQ-3"] 7;
   nodoc_end 8;
   range_end ["REQ-1"] 9].

End MoreSamples.


(** * Properties *)

Import Py PyFloat ErrorHandling SourceFileInfo Reader.

(** ** Strings *)

Lemma append_assoc (a b c : string) : (a +:+ b) +:+ c = a +:+ (b +:+ c).
Proof.
  induction a as [|x a IH]; [reflexivity|].
  change (String x ((a +:+ b) +:+ c) = String x (a +:+ (b +:+ c))).
  now rewrite IH.
Qed.

Lemma append_nil_l (a : string) : "" +:+ a = a.
Proof. reflexivity. Qed.

Lemma append_nil_r (a : string) : a +:+ "" = a.
Proof.
  induction a as [|x a IH]; [reflexivity|].
  change (String x (a +:+ "") = String x a). now rewrite IH.
Qed.

Lemma truthy_Some (s : string) :
  truthy (Some s) = negb (String.length s =? 0)%nat.
Proof. reflexivity. Qed.

(** ** Error rendering *)

(** C8, as the specification words it, fails: the rendering of the code
    starts with ["error: "] and ends its first line after the path. *)
Lemma to_print_message_differs_from_spec :
  to_print_message
    (mkError "T" None None (Some 3) (Some 1) (Some "f.py"))
  <> spec_print_message "f.py" 3 1 "T" None None.
Proof. vm_compute. discriminate. Qed.

(** C8 (amended): [to_print_message] returns
    ["error: could not parse file: " + p + ".\nSemantic error: " + t +
    "\nLocation: " + p + ":" + l + ":" + c], where an absent path, line
    or column is rendered as [None], followed by ["\nHint: " + h] when the
    hint is present and not empty and by ["\nExample:\n" + e] when the
    example is present and not empty, and by nothing else. *)
Theorem to_print_message_format (self : StrictDocSemanticError) :
  to_print_message self =
    "error: could not parse file: " +:+ fmt_opt_str (file_path self)
      +:+ "." +:+ NL
      +:+ "Semantic error: " +:+ title self +:+ NL
      +:+ "Location: " +:+ fmt_opt_str (file_path self)
      +:+ ":" +:+ fmt_opt_int (line self)
      +:+ ":" +:+ fmt_opt_int (col self)
      +:+ match hint self with
          | Some h =>
              if (String.length h =? 0)%nat then ""
              else NL +:+ "Hint: " +:+ h
          | None => ""
          end
      +:+ match example self with
          | Some e =>
              if (String.length e =? 0)%nat then ""
              else NL +:+ "Example:" +:+ NL +:+ e
          | None => ""
          end.
Proof.
  unfold to_print_message.
  destruct self as [t h e l c p]; cbn [hint example title line col file_path].
  rewrite append_nil_l.
  destruct h as [h|], e as [e|]; rewrite ?truthy_Some; cbn [truthy fmt_opt_str];
    repeat match goal with
      | |- context [(String.length ?s =? 0)%nat] =>
          destruct (String.length s =? 0)%nat
      end;
    cbn [negb]; rewrite ?append_assoc, ?append_nil_r; reflexivity.
Qed.

(** ** Stripping *)

Lemma lstrip_first (s : string) (c : ascii) :
  Py.first_char (Py.lstrip s) = Some c -> Py.isspace c = false.
Proof.
  induction s as [|a s IH]; cbn [Py.lstrip]; [discriminate|].
  destruct (Py.isspace a) eqn:Ha; [exact IH|].
  cbn. now intros [= <-].
Qed.

Lemma rstrip_last (s : string) (c : ascii) :
  Py.last_char (Py.rstrip s) = Some c -> Py.isspace c = false.
Proof.
  induction s as [|a s IH]; cbn [Py.rstrip]; [discriminate|].
  destruct (Py.rstrip s) as [|b r] eqn:Hr.
  - destruct (Py.isspace a) eqn:Ha; [discriminate|].
    cbn. now intros [= <-].
  - exact IH.
Qed.

Lemma rstrip_first (s : string) (c : ascii) :
  Py.first_char (Py.rstrip s) = Some c -> Py.first_char s = Some c.
Proof.
  destruct s as [|a s]; cbn [Py.rstrip]; [discriminate|].
  destruct (Py.rstrip s); [destruct (Py.isspace a)|]; cbn; congruence.
Qed.

(** The UID invariant holds for every argument except a string that is
    not empty and consists of whitespace only. *)
Lemma init_uid_ok_or_blank (uid : Py.value) :
  RequirementModel.uid_ok (RequirementModel.init_uid uid)
  \/ RequirementModel.init_uid uid = Some "".
Proof.
  destruct uid as [|s|n]; unfold RequirementModel.init_uid;
    [left; exact I| |left; exact I].
  destruct (0 <? String.length s)%nat; [|left; exact I].
  destruct (Py.strip s) as [|a r] eqn:Hs; [now right|left].
  rewrite <- Hs. split; [|split].
  - rewrite Hs. discriminate.
  - intros c Hc. apply rstrip_first in Hc. now apply lstrip_first in Hc.
  - intros c. apply rstrip_last.
Qed.

(** ** Requirement UID *)

(** C9: a UID argument of three spaces passes the [len(uid) > 0] test and
    is stripped afterwards: the constructed requirement has a present but
    empty UID, which breaks the invariant. *)
Theorem Requirement_init_blank_uid :
  exists r,
    RequirementModel.Requirement_init
      (Node := unit) (Reference := unit) (SpecialField := unit)
      (Comment := unit) (Child := unit) (E := unit)
      (Some tt) "REQUIREMENT" (Some "text") None (VStr "   ")
      None None None [] None None None None [] [] None = inr r
    /\ RequirementModel.uid r = Some ""
    /\ ~ RequirementModel.uid_ok (RequirementModel.uid r).
Proof.
  eexists. split; [reflexivity|]. split; [reflexivity|].
  cbn. intros [H _]. now apply H.
Qed.

(** ** Parent reference role *)

(** C10: the role of a constructed parent reference is absent or a
    non-empty string; an empty-string role becomes [None], any other
    argument is kept. *)
Theorem ParentReqReference_role_uid_normalized
    (Node MID : Type) (parent : Node) (ref_uid : string) (fresh_mid : MID) :
  let init := fun role_uid =>
    ReferenceModel.role_uid
      (ReferenceModel.ParentReqReference_init
         parent ref_uid role_uid fresh_mid) in
  (forall role_uid,
     init role_uid = None \/ exists s, init role_uid = Some s /\ s <> "")
  /\ init (Some "") = None
  /\ init None = None
  /\ (forall c s, init (Some (String c s)) = Some (String c s)).
Proof.
  cbn. repeat split.
  intros [[|c s]|]; cbn; auto.
  right. exists (String c s). split; [reflexivity|discriminate].
Qed.

(** ** The stack *)

Lemma pop_nil {A : Type} : pop (@nil A) = None.
Proof. reflexivity. Qed.

Lemma pop_snoc {A : Type} (l : list A) (x : A) : pop (l ++ [x]) = Some (x, l).
Proof.
  unfold pop. rewrite last_snoc.
  rewrite removelast_app by discriminate. cbn. now rewrite app_nil_r.
Qed.

Lemma pop_Some {A : Type} (l l' : list A) (x : A) :
  pop l = Some (x, l') -> l = l' ++ [x].
Proof.
  destruct l as [|y l] using rev_ind; [discriminate|].
  rewrite pop_snoc. now intros [= <- <-].
Qed.

Lemma pop_None {A : Type} (l : list A) : pop l = None -> l = [].
Proof.
  destruct l as [|y l] using rev_ind; [reflexivity|].
  now rewrite pop_snoc.
Qed.

Lemma top_is_nodoc_snoc (h : heap) (c : ParseContext) rest top :
  marker_stack c = rest ++ [top] ->
  top_is_nodoc h c = ng_is_nodoc (h !!! top).
Proof. intros H. unfold top_is_nodoc. now rewrite H, last_snoc. Qed.

Lemma top_is_nodoc_nil (h : heap) (c : ParseContext) :
  marker_stack c = [] -> top_is_nodoc h c = false.
Proof. intros H. unfold top_is_nodoc. now rewrite H. Qed.

Lemma is_end_class (m : Marker) :
  is_end m = true <-> class m = RangeMarker EndFlag.
Proof.
  unfold is_end. destruct (class m) as [[|]|]; split; congruence.
Qed.

Lemma is_end_not_begin (m : Marker) : is_end m = true -> is_begin m = false.
Proof. unfold is_end, is_begin. now destruct (class m) as [[|]|]. Qed.

(** ** Empty input *)

(** C7: on an input of length zero [read] returns a freshly constructed
    info object: no parts, no markers, the coverage attributes as the
    constructor left them.  [set_coverage_stats] is not reached, although
    it would raise [ZeroDivisionError] on a total of zero lines. *)
Theorem read_empty_input
    (scan : string -> option string -> error + list Marker)
    (get_lines_count : string -> Z)
    (input_string : string) (file_path : option string) :
  String.length input_string = 0%nat ->
  let info := SourceFileTraceabilityInfo_init [] in
  read scan get_lines_count input_string file_path = inr (∅, info)
  /\ parts info = [] /\ pragmas info = [] /\ markers info = None
  /\ ng_lines_total info = 0 /\ ng_lines_covered info = 0
  /\ get_coverage info = Int 0
  /\ (forall i covered,
        set_coverage_stats (E := StrictDocSemanticError) i 0 covered
        = inl ZeroDivisionError).
Proof.
  intros Hlen. unfold read. rewrite Hlen. cbn. repeat split.
Qed.

Lemma read_empty_input_witness :
  String.length "" = 0%nat
  /\ read (fun _ _ => inr []) (fun _ => 0) "" None
     = inr (∅, SourceFileTraceabilityInfo_init []).
Proof.
  split; [reflexivity|].
  apply (read_empty_input (fun _ _ => inr []) (fun _ => 0) "" None).
  reflexivity.
Defined.

(** ** END without BEGIN *)

(** C5: an END marker, nodoc or not, processed on an empty stack raises
    the END-without-BEGIN error, located at the END token. *)
Theorem end_marker_on_empty_stack
    (h : heap) (parse_context : ParseContext) (marker : ref) :
  is_end (h !!! marker) = true ->
  marker_stack parse_context = [] ->
  let location := get_location (h !!! marker) in
  let e := create_end_without_begin_error location in
  range_marker_processor marker h parse_context = inl (SemanticError e)
  /\ process_part h parse_context marker = inl (SemanticError e)
  /\ title e = "STRICTDOC RANGE: END marker without preceding BEGIN marker"
  /\ line e = Some (loc_line location)
  /\ col e = Some (loc_col location)
  /\ file_path e = loc_filename location.
Proof.
  intros Hend Hstack. cbn zeta.
  assert (Hr : range_marker_processor marker h parse_context
               = inl (SemanticError
                        (create_end_without_begin_error
                           (get_location (h !!! marker))))).
  { unfold range_marker_processor.
    rewrite (is_end_not_begin _ Hend), Hend, (top_is_nodoc_nil _ _ Hstack).
    destruct (ng_is_nodoc (h !!! marker)).
    - now rewrite Hstack, pop_nil.
    - rewrite lookup_total_insert_eq.
      change (is_begin (set_source_line_begin ?m ?v)) with (is_begin m).
      change (is_end (set_source_line_begin ?m ?v)) with (is_end m).
      rewrite (is_end_not_begin _ Hend), Hend.
      cbn [with_markers with_stack marker_stack].
      now rewrite Hstack, pop_nil. }
  repeat split; [exact Hr|].
  unfold process_part. apply is_end_class in Hend. now rewrite Hend.
Qed.

Lemma end_marker_on_empty_stack_witness :
  let h := heap_of Samples.lone_end in
  range_marker_processor 0%nat h (ParseContext_init 10)
  = inl (SemanticError (create_end_without_begin_error (Samples.at_line 2))).
Proof.
  exact (proj1 (end_marker_on_empty_stack
                  (heap_of Samples.lone_end) (ParseContext_init 10) 0%nat
                  eq_refl eq_refl)).
Defined.

(** ** The heap: attribute assignments leave the token data alone *)

Ltac solve_upd :=
  intros; rewrite lookup_total_insert; case_decide; subst; reflexivity.

Lemma class_set_source (h : heap) r x v :
  class (<[r := set_source_line_begin (h !!! r) v]> h !!! x) = class (h !!! x).
Proof. solve_upd. Qed.
Lemma class_set_begin (h : heap) r x v :
  class (<[r := set_range_line_begin (h !!! r) v]> h !!! x) = class (h !!! x).
Proof. solve_upd. Qed.
Lemma class_set_end (h : heap) r x v :
  class (<[r := set_range_line_end (h !!! r) v]> h !!! x) = class (h !!! x).
Proof. solve_upd. Qed.

Lemma reqs_set_source (h : heap) r x v :
  reqs (<[r := set_source_line_begin (h !!! r) v]> h !!! x) = reqs (h !!! x).
Proof. solve_upd. Qed.
Lemma reqs_set_begin (h : heap) r x v :
  reqs (<[r := set_range_line_begin (h !!! r) v]> h !!! x) = reqs (h !!! x).
Proof. solve_upd. Qed.
Lemma reqs_set_end (h : heap) r x v :
  reqs (<[r := set_range_line_end (h !!! r) v]> h !!! x) = reqs (h !!! x).
Proof. solve_upd. Qed.

Lemma nodoc_set_source (h : heap) r x v :
  ng_is_nodoc (<[r := set_source_line_begin (h !!! r) v]> h !!! x)
  = ng_is_nodoc (h !!! x).
Proof. solve_upd. Qed.
Lemma nodoc_set_begin (h : heap) r x v :
  ng_is_nodoc (<[r := set_range_line_begin (h !!! r) v]> h !!! x)
  = ng_is_nodoc (h !!! x).
Proof. solve_upd. Qed.
Lemma nodoc_set_end (h : heap) r x v :
  ng_is_nodoc (<[r := set_range_line_end (h !!! r) v]> h !!! x)
  = ng_is_nodoc (h !!! x).
Proof. solve_upd. Qed.

Lemma location_set_source (h : heap) r x v :
  get_location (<[r := set_source_line_begin (h !!! r) v]> h !!! x)
  = get_location (h !!! x).
Proof. solve_upd. Qed.
Lemma location_set_begin (h : heap) r x v :
  get_location (<[r := set_range_line_begin (h !!! r) v]> h !!! x)
  = get_location (h !!! x).
Proof. solve_upd. Qed.
Lemma location_set_end (h : heap) r x v :
  get_location (<[r := set_range_line_end (h !!! r) v]> h !!! x)
  = get_location (h !!! x).
Proof. solve_upd. Qed.

Lemma is_begin_class (m m' : Marker) :
  class m = class m' -> is_begin m = is_begin m'.
Proof. unfold is_begin. now intros ->. Qed.

Lemma is_end_class_eq (m m' : Marker) :
  class m = class m' -> is_end m = is_end m'.
Proof. unfold is_end. now intros ->. Qed.

Lemma is_begin_set_source (h : heap) r x v :
  is_begin (<[r := set_source_line_begin (h !!! r) v]> h !!! x)
  = is_begin (h !!! x).
Proof. apply is_begin_class, class_set_source. Qed.
Lemma is_end_set_source (h : heap) r x v :
  is_end (<[r := set_source_line_begin (h !!! r) v]> h !!! x)
  = is_end (h !!! x).
Proof. apply is_end_class_eq, class_set_source. Qed.

Create Rewrite HintDb token.

#[local] Hint Rewrite
  class_set_source class_set_begin class_set_end
  reqs_set_source reqs_set_begin reqs_set_end
  nodoc_set_source nodoc_set_begin nodoc_set_end
  location_set_source location_set_begin location_set_end
  is_begin_set_source is_end_set_source : token.

(** ** The processors, case by case *)

Lemma range_nodoc_begin (h : heap) c marker :
  ng_is_nodoc (h !!! marker) = true ->
  is_begin (h !!! marker) = true ->
  range_marker_processor marker h c
  = inr (h, with_stack c (marker_stack c ++ [marker])).
Proof. intros Hn Hb. unfold range_marker_processor. now rewrite Hn, Hb. Qed.

Lemma range_nodoc_end (h : heap) c marker :
  ng_is_nodoc (h !!! marker) = true ->
  is_end (h !!! marker) = true ->
  range_marker_processor marker h c
  = match pop (marker_stack c) with
    | Some (top, rest) =>
        if negb (ng_is_nodoc (h !!! top)) || is_end (h !!! top)
        then inl (SemanticError
                    (create_begin_end_range_reqs_mismatch_error
                       (get_location (h !!! marker))
                       (reqs (h !!! top)) (reqs (h !!! marker))))
        else inr (h, with_stack c rest)
    | None =>
        inl (SemanticError
               (create_end_without_begin_error (get_location (h !!! marker))))
    end.
Proof.
  intros Hn He. unfold range_marker_processor.
  now rewrite Hn, (is_end_not_begin _ He), He.
Qed.

Lemma range_suppressed (h : heap) c marker :
  ng_is_nodoc (h !!! marker) = false ->
  top_is_nodoc h c = true ->
  range_marker_processor marker h c = inr (h, c).
Proof. intros Hn Ht. unfold range_marker_processor. now rewrite Hn, Ht. Qed.

Lemma range_begin (h : heap) c marker :
  ng_is_nodoc (h !!! marker) = false ->
  top_is_nodoc h c = false ->
  is_begin (h !!! marker) = true ->
  range_marker_processor marker h c
  = inr (begin_heap h marker,
         mkParseContext (lines_total c) (ctx_markers c ++ [marker])
           (marker_stack c ++ [marker])
           (index_marker marker (reqs (h !!! marker))
              (map_reqs_to_markers c))).
Proof.
  intros Hn Ht Hb. unfold range_marker_processor. cbv zeta. rewrite Hn, Ht.
  autorewrite with token. rewrite Hb. unfold begin_heap.
  now autorewrite with token.
Qed.

Lemma range_end (h : heap) c marker :
  ng_is_nodoc (h !!! marker) = false ->
  top_is_nodoc h c = false ->
  is_end (h !!! marker) = true ->
  range_marker_processor marker h c
  = match pop (marker_stack c) with
    | Some (top, rest) =>
        if bool_decide (reqs (h !!! marker) ≠ reqs (h !!! top))
        then inl (SemanticError
                    (create_begin_end_range_reqs_mismatch_error
                       (get_location (h !!! marker))
                       (reqs (h !!! top)) (reqs (h !!! marker))))
        else inr (end_heap h marker top,
                  mkParseContext (lines_total c) (ctx_markers c ++ [marker])
                    rest (map_reqs_to_markers c))
    | None =>
        inl (SemanticError
               (create_end_without_begin_error (get_location (h !!! marker))))
    end.
Proof.
  intros Hn Ht He. unfold range_marker_processor. cbv zeta. rewrite Hn, Ht.
  autorewrite with token. rewrite (is_end_not_begin _ He), He.
  cbn [with_markers with_stack marker_stack ctx_markers lines_total
       map_reqs_to_markers].
  destruct (pop (marker_stack c)) as [[top rest]|]; [|reflexivity].
  now autorewrite with token.
Qed.

Lemma line_suppressed (h : heap) c marker :
  top_is_nodoc h c = true ->
  line_marker_processor marker h c = inr (h, c).
Proof. intros Ht. unfold line_marker_processor. now rewrite Ht. Qed.

Lemma line_accepted (h : heap) c marker :
  top_is_nodoc h c = false ->
  line_marker_processor marker h c
  = inr (line_heap h marker,
         mkParseContext (lines_total c) (ctx_markers c ++ [marker])
           (marker_stack c)
           (index_marker marker (reqs (h !!! marker))
              (map_reqs_to_markers c))).
Proof.
  intros Ht. unfold line_marker_processor. cbv zeta. rewrite Ht.
  unfold line_heap. now autorewrite with token.
Qed.

(** ** BEGIN/END requirement mismatch *)

(** C1: an ordinary END marker that pops an ordinary BEGIN marker raises
    the BEGIN/END mismatch error exactly when its list of requirement ids
    differs from the list of the popped marker, as lists: the order
    counts.  The error is located at the END marker and its hint shows
    both lists, the one of the BEGIN marker first. *)
Theorem end_marker_reqs_mismatch_iff
    (h : heap) (parse_context : ParseContext) (marker top : ref)
    (rest : list ref) :
  is_end (h !!! marker) = true ->
  ng_is_nodoc (h !!! marker) = false ->
  marker_stack parse_context = rest ++ [top] ->
  ng_is_nodoc (h !!! top) = false ->
  let result := range_marker_processor marker h parse_context in
  let e := create_begin_end_range_reqs_mismatch_error
             (get_location (h !!! marker))
             (reqs (h !!! top)) (reqs (h !!! marker)) in
  (result = inl (SemanticError e) <-> reqs (h !!! marker) ≠ reqs (h !!! top))
  /\ ((exists st, result = inr st)
      <-> reqs (h !!! marker) = reqs (h !!! top))
  /\ title e = "STRICTDOC RANGE: BEGIN and END requirements mismatch"
  /\ hint e
     = Some ("STRICT RANGE marker should START and END "
             +:+ "with the same requirement(s): '"
             +:+ Py.join ", " (reqs (h !!! top)) +:+ "' != '"
             +:+ Py.join ", " (reqs (h !!! marker)) +:+ "'.")
  /\ line e = Some (loc_line (get_location (h !!! marker)))
  /\ col e = Some (loc_col (get_location (h !!! marker))).
Proof.
  intros He Hn Hstack Htop. cbv zeta.
  rewrite range_end; auto.
  2: { now rewrite (top_is_nodoc_snoc _ _ _ _ Hstack). }
  rewrite Hstack, pop_snoc.
  split; [|split; [|repeat split]].
  - case_bool_decide as Hd; split; try done.
  - case_bool_decide as Hd; split.
    + now intros [st Hst].
    + contradiction.
    + intros _. now apply dec_stable.
    + eauto.
Qed.

(** The example of the specification: [REQ-1, REQ-2] closing
    [REQ-2, REQ-1] is a mismatch. *)
Lemma end_marker_reqs_mismatch_iff_witness :
  Samples.after Samples.reordered_ids 10
  = inl (SemanticError
           (create_begin_end_range_reqs_mismatch_error
              (Samples.at_line 6) ["REQ-2"; "REQ-1"] ["REQ-1"; "REQ-2"])).
Proof.
  unfold Samples.after, Samples.reordered_ids, refs_of.
  cbn [length seq process_parts].
  change (process_part (heap_of ?t) ?c 0%nat)
    with (inr (A := error)
              (begin_heap (heap_of t) 0%nat,
               mkParseContext 10 [0%nat] ([] ++ [0%nat])
                 (index_marker 0%nat ["REQ-2"; "REQ-1"] ∅))).
  cbv iota beta.
  change (process_part ?h ?c 1%nat) with (range_marker_processor 1%nat h c).
  match goal with
  | |- context [range_marker_processor 1%nat ?h ?c] =>
      rewrite (proj2 (proj1 (end_marker_reqs_mismatch_iff
                               h c 1%nat 0%nat []
                               eq_refl eq_refl eq_refl eq_refl)))
        by (vm_compute; discriminate)
  end.
  reflexivity.
Defined.

(** ** Markers inside a nodoc block *)

(** C3: while the top of the stack is a nodoc marker, an ordinary range
    marker (BEGIN or END) and a line marker are dropped: the processor
    returns the heap and the parse context as it found them, so the
    output list, the stack and the index are the same.  In the example
    of the specification, a nodoc block around a line marker for REQ-9,
    the output list and the index are empty and no line is covered;
    without the block REQ-9 is indexed and its line is covered. *)
Theorem suppressed_marker_is_dropped :
  (forall (h : heap) (parse_context : ParseContext) (marker top : ref)
          (rest : list ref),
     marker_stack parse_context = rest ++ [top] ->
     ng_is_nodoc (h !!! top) = true ->
     (ng_is_nodoc (h !!! marker) = false ->
      range_marker_processor marker h parse_context = inr (h, parse_context))
     /\ line_marker_processor marker h parse_context = inr (h, parse_context)
     /\ (class (h !!! marker) = LineMarker
         \/ ng_is_nodoc (h !!! marker) = false ->
         process_part h parse_context marker = inr (h, parse_context)))
  /\ (exists h info,
        process_model Samples.nodoc_block (ParseContext_init 3)
        = inr (h, info)
        /\ markers info = Some []
        /\ ng_map_reqs_to_markers info = Some ∅
        /\ ng_lines_covered info = 0)
  /\ (exists h info index,
        process_model [Samples.line_marker ["REQ-9"] 2] (ParseContext_init 3)
        = inr (h, info)
        /\ markers info = Some [0%nat]
        /\ ng_map_reqs_to_markers info = Some index
        /\ index !! "REQ-9" = Some [0%nat]
        /\ ng_lines_covered info = 1).
Proof.
  split; [|split].
  - intros h c marker top rest Hstack Htop.
    assert (Ht : top_is_nodoc h c = true)
      by now rewrite (top_is_nodoc_snoc _ _ _ _ Hstack).
    split; [|split].
    + intros Hn. now apply range_suppressed.
    + now apply line_suppressed.
    + unfold process_part.
      destruct (class (h !!! marker)) eqn:Hc.
      * intros [|Hn]; [discriminate|]. now apply range_suppressed.
      * intros _. now apply line_suppressed.
  - eexists _, _. split; [vm_compute; reflexivity|]. repeat split.
  - eexists _, _, _. split; [vm_compute; reflexivity|].
    split; [reflexivity|]. split; [reflexivity|].
    split; [|reflexivity]. vm_compute. reflexivity.
Qed.

Lemma suppressed_marker_is_dropped_witness :
  let h := heap_of Samples.nodoc_block in
  let c := mkParseContext 3 [] [0%nat] ∅ in
  line_marker_processor 1%nat h c = inr (h, c).
Proof.
  exact (proj1 (proj2 (proj1 suppressed_marker_is_dropped
                         (heap_of Samples.nodoc_block)
                         (mkParseContext 3 [] [0%nat] ∅)
                         1%nat 0%nat [] eq_refl eq_refl))).
Defined.

(** ** Coverage *)

Lemma merge_range_nil (b e : Z) : merge_range [] b e = [(b, e)].
Proof. reflexivity. Qed.

Lemma merge_range_snoc (merged : list (Z * Z)) (lb le b e : Z) :
  merge_range (merged ++ [(lb, le)]) b e
  = if b <=? le + 1
    then merged ++ [(lb, Z.max le e)]
    else merged ++ [(lb, le); (b, e)].
Proof.
  unfold merge_range. rewrite last_snoc.
  rewrite removelast_app by discriminate. cbn [removelast].
  rewrite app_nil_r.
  destruct (Z.geb_spec le (b - 1)), (Z.leb_spec b (le + 1)); try lia.
  - reflexivity.
  - now rewrite <- app_assoc.
Qed.

Lemma fold_merge_range (merged : list (Z * Z)) (current : Z * Z)
    (ranges : list (Z * Z)) :
  foldl (fun acc r => merge_range acc (fst r) (snd r))
        (merged ++ [current]) ranges
  = merged ++ Spec.merge_from current ranges.
Proof.
  revert merged current.
  induction ranges as [|[b e] ranges IH]; intros merged [lb le];
    [reflexivity|].
  cbn [foldl Spec.merge_from fst snd]. rewrite merge_range_snoc.
  destruct (b <=? le + 1).
  - apply IH.
  - change [(lb, le); (b, e)] with ([(lb, le)] ++ [(b, e)]).
    rewrite app_assoc, IH, <- app_assoc. reflexivity.
Qed.

Lemma fold_merge_range_nil (ranges : list (Z * Z)) :
  foldl (fun acc r => merge_range acc (fst r) (snd r)) [] ranges
  = Spec.merge ranges.
Proof.
  destruct ranges as [|[b e] ranges]; [reflexivity|].
  cbn [foldl fst snd]. rewrite merge_range_nil.
  apply (fold_merge_range [] (b, e)).
Qed.

Lemma merge_markers_fold (h : heap) (ms : list ref) (merged : list (Z * Z)) :
  Spec.resolved h ms ->
  merge_markers h ms merged
  = inr (foldl (fun acc r => merge_range acc (fst r) (snd r))
               merged (Spec.covered_ranges h ms)).
Proof.
  revert merged. induction ms as [|r ms IH]; intros merged Hres;
    [reflexivity|].
  assert (Hres' : Spec.resolved h ms).
  { intros x Hx. apply Hres. now right. }
  specialize (Hres r (list_elem_of_here _ _)).
  cbn [merge_markers Spec.covered_ranges omap list_omap].
  unfold Spec.covered_range at 1.
  destruct (ng_is_nodoc (h !!! r)); [now apply IH|].
  destruct (is_begin (h !!! r)); cbn [negb]; [|now apply IH].
  destruct Hres as [[b Hb] [e He]]; try reflexivity.
  rewrite Hb, He. cbn [assert_cast_int foldl]. now apply IH.
Qed.

Lemma count_coverage_sum (merged : list (Z * Z)) :
  count_coverage merged = Spec.covered_lines merged.
Proof.
  unfold count_coverage, Spec.covered_lines.
  assert (H : forall a,
             foldl (fun coverage r => coverage + (snd r - fst r + 1)) a merged
             = a + foldr Z.add 0 (map (fun i => snd i - fst i + 1) merged)).
  { induction merged as [|r merged IH]; intros a; cbn; [lia|].
    rewrite IH. lia. }
  now rewrite H.
Qed.

(** C4: the coverage loop follows the merging rule of the specification:
    a range is merged into the last merged interval exactly when its
    begin is at most the merged end + 1, and the merged end becomes the
    maximum of the two ends; otherwise it starts a new interval.  On a
    matched marker list the loop yields the merge of the ranges of the
    non-nodoc BEGIN markers, the covered-line count is the sum of
    [end - begin + 1] over the merged intervals, and the coverage is
    [round(covered / total * 100, 1)].  Ranges [[2,4]] and [[5,7]] in a
    file of 10 lines give the interval [[2,7]], 6 covered lines and a
    coverage of 60.0. *)
Theorem coverage_follows_merge_rule :
  (forall b e, merge_range [] b e = [(b, e)])
  /\ (forall merged lb le b e,
        merge_range (merged ++ [(lb, le)]) b e
        = if b <=? le + 1
          then merged ++ [(lb, Z.max le e)]
          else merged ++ [(lb, le); (b, e)])
  /\ (forall info (h : heap) (parse_context : ParseContext),
        marker_stack parse_context = [] ->
        Spec.resolved h (ctx_markers parse_context) ->
        let merged :=
          Spec.merge (Spec.covered_ranges h (ctx_markers parse_context)) in
        let covered := Spec.covered_lines merged in
        merge_markers h (ctx_markers parse_context) [] = inr merged
        /\ forall q c,
             truediv (E := StrictDocSemanticError)
               covered (lines_total parse_context) = inr q ->
             round1 (E := StrictDocSemanticError) (mul_int q 100) = inr c ->
             exists info',
               source_file_traceability_info_processor info h parse_context
               = inr info'
               /\ markers info' = Some (ctx_markers parse_context)
               /\ ng_lines_total info' = lines_total parse_context
               /\ ng_lines_covered info' = covered
               /\ get_coverage info' = Float c)
  /\ (exists h info m e,
        process_model Samples.two_ranges (ParseContext_init 10)
        = inr (h, info)
        /\ Spec.covered_ranges h (default [] (markers info))
           = [(2, 4); (5, 7)]
        /\ Spec.merge [(2, 4); (5, 7)] = [(2, 7)]
        /\ ng_lines_covered info = 6
        /\ get_coverage info = Float (S754_finite false m e)
        /\ Z.pos m = 60 * 2 ^ (- e)).
Proof.
  split; [exact merge_range_nil|].
  split; [exact merge_range_snoc|].
  split.
  - intros info h c Hstack Hres merged covered.
    assert (Hm : merge_markers h (ctx_markers c) [] = inr merged).
    { rewrite merge_markers_fold by assumption.
      now rewrite fold_merge_range_nil. }
    split; [exact Hm|].
    intros q r Hq Hr.
    unfold source_file_traceability_info_processor.
    rewrite Hstack. cbn [length Nat.ltb Nat.leb].
    rewrite Hm, count_coverage_sum.
    unfold set_coverage_stats, coverage_percentage.
    fold covered. rewrite Hq, Hr.
    eexists. split; [reflexivity|]. repeat split.
  - eexists _, _, _, _. split; [vm_compute; reflexivity|].
    split; [vm_compute; reflexivity|]. repeat split.
Qed.

Lemma coverage_follows_merge_rule_witness :
  let h := <[0%nat := set_range_line_end
                        (set_range_line_begin (Samples.range_begin ["REQ-1"] 2)
                           (Some 2)) (Some 4)]>
             (heap_of Samples.two_ranges) in
  merge_markers h [0%nat; 1%nat] [] = inr [(2, 4)].
Proof.
  refine (proj1 (proj1 (proj2 (proj2 coverage_follows_merge_rule))
                   (SourceFileTraceabilityInfo_init [])
                   _ (mkParseContext 10 [0%nat; 1%nat] [] ∅) eq_refl _)).
  intros r Hr H1 H2.
  apply list_elem_of_In in Hr. cbn in Hr.
  destruct Hr as [<-|[<-|[]]]; [split; eexists; reflexivity|].
  now vm_compute in H2.
Defined.

(** ** The heap after a step *)

Import Spec.

Ltac heap_cases :=
  repeat (rewrite lookup_total_insert; case_decide; subst);
  cbn; try congruence; try reflexivity.

Lemma begin_heap_other (h : heap) (k x : ref) :
  x <> k -> begin_heap h k !!! x = h !!! x.
Proof. intros Hx. unfold begin_heap. heap_cases. Qed.

Lemma begin_heap_self (h : heap) (k : ref) :
  ng_range_line_begin (begin_heap h k !!! k) = Some (line_of h k).
Proof. unfold begin_heap. heap_cases. Qed.

Lemma line_heap_other (h : heap) (k x : ref) :
  x <> k -> line_heap h k !!! x = h !!! x.
Proof. intros Hx. unfold line_heap. heap_cases. Qed.

Lemma end_heap_other (h : heap) (k top x : ref) :
  x <> k -> x <> top -> end_heap h k top !!! x = h !!! x.
Proof. intros Hx Hx'. unfold end_heap. heap_cases. Qed.

Lemma end_heap_top_begin (h : heap) (k top : ref) :
  top <> k ->
  ng_range_line_begin (end_heap h k top !!! top)
  = ng_range_line_begin (h !!! top).
Proof. intros Hx. unfold end_heap. heap_cases. Qed.

Lemma end_heap_top_end (h : heap) (k top : ref) :
  top <> k ->
  ng_range_line_end (end_heap h k top !!! top) = Some (line_of h k).
Proof. intros Hx. unfold end_heap. heap_cases. Qed.

Lemma end_heap_self_begin (h : heap) (k top : ref) :
  top <> k ->
  ng_range_line_begin (end_heap h k top !!! k)
  = ng_range_line_begin (h !!! top).
Proof. intros Hx. unfold end_heap. heap_cases. Qed.

Lemma end_heap_self_end (h : heap) (k top : ref) :
  ng_range_line_end (end_heap h k top !!! k) = Some (line_of h k).
Proof. unfold end_heap. heap_cases. Qed.

Lemma same_token_refl (m : Marker) : same_token m m.
Proof. now split. Qed.

Lemma same_token_trans (m1 m2 m3 : Marker) :
  same_token m1 m2 -> same_token m2 m3 -> same_token m1 m3.
Proof. intros [] []. split; congruence. Qed.

Lemma begin_heap_same (h : heap) (k x : ref) :
  same_token (begin_heap h k !!! x) (h !!! x).
Proof. unfold begin_heap. split; now autorewrite with token. Qed.

Lemma line_heap_same (h : heap) (k x : ref) :
  same_token (line_heap h k !!! x) (h !!! x).
Proof. unfold line_heap. split; now autorewrite with token. Qed.

Lemma end_heap_same (h : heap) (k top x : ref) :
  same_token (end_heap h k top !!! x) (h !!! x).
Proof. unfold end_heap. split; now autorewrite with token. Qed.

(** ** Counting markers *)

Lemma count_class_snoc (h : heap) (c : MarkerClass) (ms : list ref) (k : ref) :
  count_class h c (ms ++ [k])
  = (count_class h c ms + if decide (class (h !!! k) = c) then 1 else 0)%nat.
Proof.
  unfold count_class. rewrite filter_app, length_app.
  f_equal. cbn. unfold filter. cbn. now case_decide.
Qed.

Lemma count_ordinary_snoc (h : heap) (ms : list ref) (k : ref) :
  count_ordinary h (ms ++ [k])
  = (count_ordinary h ms + if ng_is_nodoc (h !!! k) then 0 else 1)%nat.
Proof.
  unfold count_ordinary. rewrite filter_app, length_app.
  f_equal. cbn. unfold filter. cbn.
  case_decide as H; destruct (ng_is_nodoc (h !!! k)); done.
Qed.

(** ** The invariant is preserved *)

Ltac elems :=
  repeat match goal with
    | H : _ ∈ _ ++ _ |- _ => apply elem_of_app in H; destruct H as [H|H]
    | H : _ ∈ [_] |- _ => apply list_elem_of_singleton in H; subst
    | H : _ ∉ _ ++ _ |- _ => apply not_elem_of_app in H; destruct H
    end.

Lemma begin_resolved_S h0 h k r :
  begin_resolved h0 h k r -> begin_resolved h0 h (S k) r.
Proof. intros (j & ? & ? & ? & ?). exists j. repeat split; auto; lia. Qed.

Lemma begin_resolved_heap h0 h h' k r :
  h' !!! r = h !!! r ->
  begin_resolved h0 h k r -> begin_resolved h0 h' (S k) r.
Proof.
  intros Heq (j & ? & ? & ? & ?). exists j. rewrite Heq.
  repeat split; auto; lia.
Qed.

Lemma invariant_skip h0 k h c closed :
  invariant h0 k h c closed -> invariant h0 (S k) h c closed.
Proof.
  intros []. split; try assumption.
  - intros r Hr. specialize (inv_markers_lt0 r Hr). lia.
  - intros r Hr. specialize (inv_stack_lt0 r Hr). lia.
  - intros r Hr Hcl Hnot. apply begin_resolved_S. auto.
Qed.

Lemma stack_sorted_push (stack : list ref) (k : ref) :
  StronglySorted lt stack -> (forall r, r ∈ stack -> (r < k)%nat) ->
  StronglySorted lt (stack ++ [k]).
Proof.
  intros Hs Hlt. apply StronglySorted_app. split; [|split].
  - intros x y Hx Hy. apply list_elem_of_singleton in Hy. subst.
    now apply Hlt.
  - assumption.
  - repeat constructor.
Qed.

Lemma invariant_nodoc_begin h0 k h c closed :
  invariant h0 k h c closed ->
  class (h0 !!! k) = RangeMarker BeginFlag ->
  ng_is_nodoc (h0 !!! k) = true ->
  invariant h0 (S k) h (with_stack c (marker_stack c ++ [k])) closed.
Proof.
  intros [] Hc Hn.
  split; cbn [with_stack ctx_markers marker_stack]; try assumption.
  - intros r Hr. specialize (inv_markers_lt0 r Hr). lia.
  - intros r Hr. elems; [specialize (inv_stack_lt0 r Hr)|]; lia.
  - now apply stack_sorted_push.
  - intros r Hr. elems; auto.
  - intros r Hr Hord. elems; [auto|congruence].
  - rewrite count_ordinary_snoc, Hn. lia.
  - intros r Hr Hcl Hnot. elems. apply begin_resolved_S. auto.
  - intros i j Hij. destruct (inv_closed0 i j Hij) as (?&Hj&?&?&?&?&?&?&?).
    repeat split; try assumption.
    intros Hin. elems; [contradiction|].
    specialize (inv_markers_lt0 _ Hj). lia.
Qed.

Lemma invariant_nodoc_end h0 k h c closed rest top :
  invariant h0 k h c closed ->
  marker_stack c = rest ++ [top] ->
  ng_is_nodoc (h0 !!! top) = true ->
  invariant h0 (S k) h (with_stack c rest) closed.
Proof.
  intros [] Hstack Hn. rewrite Hstack in *.
  assert (Htop : forall r, r ∈ ctx_markers c -> r <> top).
  { intros r Hr ->.
    assert (Hb : class (h0 !!! top) = RangeMarker BeginFlag).
    { apply inv_stack_begin0. apply elem_of_app. right. now left. }
    specialize (inv_markers_ordinary0 top Hr). rewrite Hb in *.
    rewrite inv_markers_ordinary0 in Hn; congruence. }
  split; cbn [with_stack ctx_markers marker_stack]; try assumption.
  - intros r Hr. specialize (inv_markers_lt0 r Hr). lia.
  - intros r Hr.
    assert (r < k)%nat by (apply inv_stack_lt0, elem_of_app; now left). lia.
  - now apply StronglySorted_app_1_l in inv_stack_sorted0.
  - intros r Hr. apply inv_stack_begin0, elem_of_app. now left.
  - intros r Hr. apply inv_stack_open0, elem_of_app. now left.
  - rewrite count_ordinary_snoc, Hn in inv_count0. lia.
  - intros r Hr Hcl Hnot.
    apply begin_resolved_S, inv_begin_closed0; try assumption.
    intros Hin. elems; [contradiction|].
    match goal with H : ?x ∈ ctx_markers c |- _ => now apply (Htop x H) end.
  - intros i j Hij. destruct (inv_closed0 i j Hij) as (?&Hj&?&?&?&Hnot&?&?&?).
    repeat split; try assumption.
    intros Hin. apply Hnot, elem_of_app. now left.
Qed.

Lemma line_of_frozen h0 h (r : ref) :
  (forall x, same_token (h !!! x) (h0 !!! x)) -> line_of h r = line_of h0 r.
Proof. intros H. unfold line_of. now rewrite (same_location _ _ (H r)). Qed.

Lemma invariant_begin h0 k h c closed index :
  invariant h0 k h c closed ->
  class (h0 !!! k) = RangeMarker BeginFlag ->
  ng_is_nodoc (h0 !!! k) = false ->
  invariant h0 (S k) (begin_heap h k)
    (mkParseContext (lines_total c) (ctx_markers c ++ [k])
       (marker_stack c ++ [k]) index)
    closed.
Proof.
  intros [] Hc Hn.
  assert (Hml : forall r, r ∈ ctx_markers c -> r <> k).
  { intros r Hr. specialize (inv_markers_lt0 r Hr). lia. }
  assert (Hsl : forall r, r ∈ marker_stack c -> r <> k).
  { intros r Hr. specialize (inv_stack_lt0 r Hr). lia. }
  split; cbn [ctx_markers marker_stack].
  - intros x. eapply same_token_trans; [apply begin_heap_same|auto].
  - intros r Hr. elems; [specialize (inv_markers_lt0 r Hr)|]; lia.
  - intros r Hr. elems; [specialize (inv_stack_lt0 r Hr)|]; lia.
  - now apply stack_sorted_push.
  - intros r Hr. elems; auto.
  - intros r Hr Hord. elems.
    + destruct (inv_stack_open0 r Hr Hord) as [Hin Hb]. split.
      * apply elem_of_app. now left.
      * rewrite begin_heap_other by auto. exact Hb.
    + split.
      * apply elem_of_app. right. now left.
      * rewrite begin_heap_self. f_equal. now apply line_of_frozen.
  - intros r Hr Hcl. elems; auto.
  - rewrite !count_class_snoc, count_ordinary_snoc, Hc, Hn.
    rewrite decide_True by reflexivity. rewrite decide_False by discriminate.
    lia.
  - intros r Hr Hcl Hnot. elems.
    + apply (begin_resolved_heap h0 h); auto using begin_heap_other.
    + exfalso. match goal with H : _ ∉ [_] |- _ => apply H end. now left.
  - intros j Hj Hcl. elems; [auto|congruence].
  - intros i j Hij.
    destruct (inv_closed0 i j Hij) as (Hi&Hj&?&?&?&?&?&?&?).
    rewrite !begin_heap_other by auto.
    repeat split; try assumption; try (apply elem_of_app; now left).
    intros Hin. elems; [contradiction|]. now apply (Hml _ Hi).
Qed.

Lemma invariant_line h0 k h c closed index :
  invariant h0 k h c closed ->
  class (h0 !!! k) = LineMarker ->
  invariant h0 (S k) (line_heap h k)
    (mkParseContext (lines_total c) (ctx_markers c ++ [k])
       (marker_stack c) index)
    closed.
Proof.
  intros [] Hc.
  assert (Hml : forall r, r ∈ ctx_markers c -> r <> k).
  { intros r Hr. specialize (inv_markers_lt0 r Hr). lia. }
  assert (Hsl : forall r, r ∈ marker_stack c -> r <> k).
  { intros r Hr. specialize (inv_stack_lt0 r Hr). lia. }
  split; cbn [ctx_markers marker_stack].
  - intros x. eapply same_token_trans; [apply line_heap_same|auto].
  - intros r Hr. elems; [specialize (inv_markers_lt0 r Hr)|]; lia.
  - intros r Hr. specialize (inv_stack_lt0 r Hr). lia.
  - assumption.
  - assumption.
  - intros r Hr Hord.
    destruct (inv_stack_open0 r Hr Hord) as [Hin Hb]. split.
    + apply elem_of_app. now left.
    + rewrite line_heap_other by auto. exact Hb.
  - intros r Hr Hcl. elems; [auto|congruence].
  - rewrite !count_class_snoc, Hc.
    rewrite !decide_False by discriminate. lia.
  - intros r Hr Hcl Hnot. elems; [|congruence].
    apply (begin_resolved_heap h0 h); auto using line_heap_other.
  - intros j Hj Hcl. elems; [auto|congruence].
  - intros i j Hij.
    destruct (inv_closed0 i j Hij) as (Hi&Hj&?&?&?&?&?&?&?).
    rewrite !line_heap_other by auto.
    repeat split; try assumption; apply elem_of_app; now left.
Qed.

Lemma invariant_end h0 k h c closed rest top :
  invariant h0 k h c closed ->
  class (h0 !!! k) = RangeMarker EndFlag ->
  ng_is_nodoc (h0 !!! k) = false ->
  marker_stack c = rest ++ [top] ->
  ng_is_nodoc (h0 !!! top) = false ->
  reqs (h0 !!! k) = reqs (h0 !!! top) ->
  invariant h0 (S k) (end_heap h k top)
    (mkParseContext (lines_total c) (ctx_markers c ++ [k]) rest
       (map_reqs_to_markers c))
    (closed ++ [(top, k)]).
Proof.
  intros [] Hc Hn Hstack Htn Hreqs. rewrite Hstack in *.
  assert (Hml : forall r, r ∈ ctx_markers c -> r <> k).
  { intros r Hr. specialize (inv_markers_lt0 r Hr). lia. }
  assert (Hsl : forall r, r ∈ rest ++ [top] -> r <> k).
  { intros r Hr. specialize (inv_stack_lt0 r Hr). lia. }
  assert (Hin_top : top ∈ rest ++ [top]).
  { apply elem_of_app. right. now left. }
  assert (Hrest : forall r, r ∈ rest -> r ∈ rest ++ [top]).
  { intros r Hr. apply elem_of_app. now left. }
  assert (Hrt : forall r, r ∈ rest -> r <> top).
  { intros r Hr.
    assert (r < top)%nat; [|lia].
    eapply (StronglySorted_app_1_elem_of lt); eauto. now left. }
  assert (Htk : top <> k) by auto.
  destruct (inv_stack_open0 top Hin_top Htn) as [Htm Htb].
  assert (Htc := inv_stack_begin0 top Hin_top).
  assert (Hlk : line_of h k = line_of h0 k) by now apply line_of_frozen.
  assert (Htlt : (top < k)%nat) by auto.
  clear Hin_top.
  split; cbn [ctx_markers marker_stack].
  - intros x. eapply same_token_trans; [apply end_heap_same|auto].
  - intros r Hr. elems; [specialize (inv_markers_lt0 r Hr)|]; lia.
  - intros r Hr. specialize (inv_stack_lt0 r (Hrest r Hr)). lia.
  - now apply StronglySorted_app_1_l in inv_stack_sorted0.
  - intros r Hr. auto.
  - intros r Hr Hord.
    destruct (inv_stack_open0 r (Hrest r Hr) Hord) as [Hin Hb]. split.
    + apply elem_of_app. now left.
    + rewrite end_heap_other by auto. exact Hb.
  - intros r Hr Hcl. elems; auto.
  - rewrite !count_class_snoc, Hc.
    rewrite decide_False by discriminate. rewrite decide_True by reflexivity.
    rewrite count_ordinary_snoc, Htn in inv_count0. lia.
  - intros r Hr Hcl Hnot. elems; [|congruence].
    destruct (decide (r = top)) as [->|Hne].
    + exists k.
      rewrite end_heap_top_begin, end_heap_top_end by auto.
      rewrite Hlk. auto.
    + apply (begin_resolved_heap h0 h); auto using end_heap_other.
      apply inv_begin_closed0; try assumption.
      intros Hin. elems; [contradiction|]. now apply Hne.
  - intros j Hj Hcl. elems.
    + destruct (inv_end_closed0 j Hj Hcl) as [i Hi].
      exists i. apply elem_of_app. now left.
    + exists top. apply elem_of_app. right. now left.
  - intros i j Hij. apply elem_of_app in Hij. destruct Hij as [Hij|Hij].
    + destruct (inv_closed0 i j Hij) as (Hi&Hj&?&?&Hjc&Hnot&?&?&?).
      assert (i <> top).
      { intros ->. apply Hnot, elem_of_app. right. now left. }
      assert (j <> top) by (intros ->; congruence).
      rewrite !end_heap_other by auto.
      repeat split; try assumption; try (apply elem_of_app; now left).
      intros Hin. now apply Hnot, Hrest.
    + apply list_elem_of_singleton in Hij. injection Hij as -> ->.
      rewrite end_heap_self_begin, end_heap_top_begin by auto.
      rewrite end_heap_self_end, end_heap_top_end by auto.
      repeat split; try assumption.
      * apply elem_of_app. now left.
      * apply elem_of_app. right. now left.
      * intros Hin. now apply (Hrt top).
      * now symmetry.
Qed.

Lemma closing_nodoc h c k :
  ng_is_nodoc (h !!! k) = true -> closing h c k = [].
Proof. intros H. unfold closing. now rewrite H. Qed.

Lemma closing_suppressed h c k :
  top_is_nodoc h c = true -> closing h c k = [].
Proof.
  intros H. unfold closing. rewrite H. now destruct (ng_is_nodoc (h !!! k)).
Qed.

Lemma closing_not_end h c k :
  is_end (h !!! k) = false -> closing h c k = [].
Proof.
  intros H. unfold closing. rewrite H.
  now destruct (ng_is_nodoc (h !!! k)), (top_is_nodoc h c).
Qed.

Lemma closing_end h c k rest top :
  ng_is_nodoc (h !!! k) = false -> top_is_nodoc h c = false ->
  is_end (h !!! k) = true -> marker_stack c = rest ++ [top] ->
  closing h c k = [(top, k)].
Proof.
  intros Hn Ht He Hs. unfold closing. now rewrite Hn, Ht, He, Hs, last_snoc.
Qed.

Lemma invariant_step h0 k h c closed h' c' :
  invariant h0 k h c closed ->
  process_part h c k = inr (h', c') ->
  invariant h0 (S k) h' c' (closed ++ closing h c k).
Proof.
  intros Hinv Hstep.
  destruct (inv_frozen _ _ _ _ _ Hinv k) as [Hc Hr Hn _].
  unfold process_part in Hstep.
  destruct (class (h !!! k)) as [[|]|] eqn:Hclass.
  - (* BEGIN *)
    assert (Hb : is_begin (h !!! k) = true) by (unfold is_begin; now rewrite Hclass).
    assert (He : is_end (h !!! k) = false) by (unfold is_end; now rewrite Hclass).
    rewrite (closing_not_end _ _ _ He), app_nil_r.
    destruct (ng_is_nodoc (h !!! k)) eqn:Hnodoc.
    + rewrite range_nodoc_begin in Hstep by assumption.
      injection Hstep as <- <-. now apply invariant_nodoc_begin.
    + destruct (top_is_nodoc h c) eqn:Ht.
      * rewrite range_suppressed in Hstep by assumption.
        injection Hstep as <- <-. now apply invariant_skip.
      * rewrite range_begin in Hstep by assumption.
        injection Hstep as <- <-. now apply invariant_begin.
  - (* END *)
    assert (He : is_end (h !!! k) = true) by (unfold is_end; now rewrite Hclass).
    destruct (ng_is_nodoc (h !!! k)) eqn:Hnodoc.
    + rewrite (closing_nodoc _ _ _ Hnodoc), app_nil_r.
      rewrite range_nodoc_end in Hstep by assumption.
      destruct (pop (marker_stack c)) as [[top rest]|] eqn:Hpop;
        [|discriminate].
      apply pop_Some in Hpop.
      destruct (ng_is_nodoc (h !!! top)) eqn:Htop; [|discriminate].
      destruct (is_end (h !!! top)); [discriminate|].
      injection Hstep as <- <-.
      apply (invariant_nodoc_end _ _ _ _ _ rest top); auto.
      now rewrite <- (same_nodoc _ _ (inv_frozen _ _ _ _ _ Hinv top)).
    + destruct (top_is_nodoc h c) eqn:Ht.
      * rewrite (closing_suppressed _ _ _ Ht), app_nil_r.
        rewrite range_suppressed in Hstep by assumption.
        injection Hstep as <- <-. now apply invariant_skip.
      * rewrite range_end in Hstep by assumption.
        destruct (pop (marker_stack c)) as [[top rest]|] eqn:Hpop;
          [|discriminate].
        apply pop_Some in Hpop.
        case_bool_decide as Hreqs; [discriminate|].
        injection Hstep as <- <-.
        rewrite (closing_end _ _ _ rest top) by assumption.
        rewrite (top_is_nodoc_snoc _ _ _ _ Hpop) in Ht.
        destruct (inv_frozen _ _ _ _ _ Hinv top) as [_ Hrt Hnt _].
        apply invariant_end; auto; congruence.
  - (* LineMarker *)
    assert (He : is_end (h !!! k) = false) by (unfold is_end; now rewrite Hclass).
    rewrite (closing_not_end _ _ _ He), app_nil_r.
    destruct (top_is_nodoc h c) eqn:Ht.
    + rewrite line_suppressed in Hstep by assumption.
      injection Hstep as <- <-. now apply invariant_skip.
    + rewrite line_accepted in Hstep by assumption.
      injection Hstep as <- <-. now apply invariant_line.
Qed.

Lemma invariant_run h0 m :
  forall k h c closed h' c',
    invariant h0 k h c closed ->
    process_parts h c (seq k m) = inr (h', c') ->
    invariant h0 (k + m) h' c' (closed ++ closings h c (seq k m)).
Proof.
  induction m as [|m IH]; intros k h c closed h' c' Hinv Hrun.
  - cbn in *. injection Hrun as <- <-.
    now rewrite Nat.add_0_r, app_nil_r.
  - cbn [seq process_parts closings] in *.
    destruct (process_part h c k) as [e|[h1 c1]] eqn:Hstep; [discriminate|].
    rewrite app_assoc. replace (k + S m)%nat with (S k + m)%nat by lia.
    apply IH; [|assumption].
    now apply invariant_step.
Qed.

Lemma invariant_init h0 total :
  invariant h0 0 h0 (ParseContext_init total) [].
Proof.
  split; cbn; try (intros ? H; now apply elem_of_nil in H).
  - intros x. apply same_token_refl.
  - constructor.
  - reflexivity.
  - intros ? ? H. now apply elem_of_nil in H.
Qed.

Lemma invariant_tokens tokens total h c :
  process_parts (heap_of tokens) (ParseContext_init total) (refs_of tokens)
  = inr (h, c) ->
  invariant (heap_of tokens) (length tokens) h c
    (closings (heap_of tokens) (ParseContext_init total) (refs_of tokens)).
Proof.
  intros Hrun.
  apply (invariant_run (heap_of tokens) (length tokens) 0%nat
           _ _ [] _ _ (invariant_init _ total) Hrun).
Qed.

(** ** Successful parses *)

Lemma heap_of_lookup (tokens : list Marker) (i : ref) (m : Marker) :
  tokens !! i = Some m -> heap_of tokens !!! i = m.
Proof.
  intros H. unfold heap_of. rewrite lookup_total_alt.
  now rewrite lookup_map_seq_0, H.
Qed.

Lemma StronglySorted_lookup_le (l : list Z) :
  StronglySorted Z.le l ->
  forall i j x y, (i < j)%nat -> l !! i = Some x -> l !! j = Some y -> x <= y.
Proof.
  induction 1 as [|a l Hs IH Hall]; intros i j x y Hij Hi Hj.
  - discriminate.
  - destruct j as [|j]; [lia|]. cbn in Hj.
    destruct i as [|i]; cbn in Hi.
    + injection Hi as <-.
      rewrite Forall_forall in Hall. apply Hall.
      now apply list_elem_of_lookup_2 in Hj.
    + apply (IH i j); auto. lia.
Qed.

Lemma lines_ascending_le (tokens : list Marker) (i j : ref) :
  lines_ascending tokens -> (i < j)%nat -> (j < length tokens)%nat ->
  line_of (heap_of tokens) i <= line_of (heap_of tokens) j.
Proof.
  intros Hs Hij Hj.
  destruct (lookup_lt_is_Some_2 tokens i) as [mi Hi]; [lia|].
  destruct (lookup_lt_is_Some_2 tokens j) as [mj Hmj]; [lia|].
  unfold line_of.
  rewrite (heap_of_lookup _ _ _ Hi), (heap_of_lookup _ _ _ Hmj).
  apply (StronglySorted_lookup_le _ Hs i j); auto;
    rewrite list_lookup_fmap; [now rewrite Hi|now rewrite Hmj].
Qed.

Lemma process_model_success tokens c0 h info :
  process_model tokens c0 = inr (h, info) ->
  exists c,
    process_parts (heap_of tokens) c0 (refs_of tokens) = inr (h, c)
    /\ marker_stack c = []
    /\ markers info = Some (ctx_markers c)
    /\ ng_map_reqs_to_markers info = Some (map_reqs_to_markers c).
Proof.
  unfold process_model.
  destruct (process_parts _ _ _) as [e|[h1 c1]]; [discriminate|].
  unfold source_file_traceability_info_processor.
  destruct (marker_stack c1) as [|top rest] eqn:Hstack; [|discriminate].
  cbn [length Nat.ltb Nat.leb].
  destruct (merge_markers _ _ _) as [e|merged]; [discriminate|].
  unfold set_coverage_stats.
  destruct (coverage_percentage _ _) as [e|cov]; [discriminate|].
  intros [= <- <-]. exists c1. repeat split. assumption.
Qed.

Lemma count_class_frozen h0 h cl (ms : list ref) :
  (forall x, same_token (h !!! x) (h0 !!! x)) ->
  count_class h cl ms = count_class h0 cl ms.
Proof.
  intros Hf. unfold count_class. f_equal.
  apply list_filter_iff. intros x. now rewrite (same_class _ _ (Hf x)).
Qed.

(** The matched ranges of a successful run of the automaton and the
    end-of-input step. *)
Lemma process_model_matched
    (tokens : list Marker) (total : Z)
    (h : heap) (info : SourceFileTraceabilityInfo) :
  lines_ascending tokens ->
  process_model tokens (ParseContext_init total) = inr (h, info) ->
  exists ms,
    markers info = Some ms
    /\ count_class h (RangeMarker BeginFlag) ms
       = count_class h (RangeMarker EndFlag) ms
    /\ (forall b, b ∈ ms -> class (h !!! b) = RangeMarker BeginFlag ->
          exists lb le,
            ng_range_line_begin (h !!! b) = Some lb
            /\ ng_range_line_end (h !!! b) = Some le
            /\ lb <= le)
    /\ (forall e, e ∈ ms -> class (h !!! e) = RangeMarker EndFlag ->
          exists b,
            closed_by tokens total b e
            /\ b ∈ ms
            /\ class (h !!! b) = RangeMarker BeginFlag
            /\ ng_range_line_begin (h !!! e) = ng_range_line_begin (h !!! b)
            /\ ng_range_line_end (h !!! e) = ng_range_line_end (h !!! b)).
Proof.
  intros Hsorted Hmodel.
  destruct (process_model_success _ _ _ _ Hmodel)
    as (c & Hrun & Hstack & Hmarkers & _).
  pose proof (invariant_tokens _ _ _ _ Hrun) as Hinv.
  pose proof (inv_frozen _ _ _ _ _ Hinv) as Hf.
  exists (ctx_markers c). split; [assumption|]. split; [|split].
  - rewrite !(count_class_frozen _ _ _ _ Hf).
    rewrite (inv_count _ _ _ _ _ Hinv), Hstack. cbn. lia.
  - intros b Hb Hcl. rewrite (same_class _ _ (Hf b)) in Hcl.
    destruct (inv_begin_closed _ _ _ _ _ Hinv b Hb Hcl)
      as (j & Hbj & Hj & Hbegin & Hend).
    { rewrite Hstack. apply not_elem_of_nil. }
    exists (line_of (heap_of tokens) b), (line_of (heap_of tokens) j).
    repeat split; try assumption. now apply lines_ascending_le.
  - intros e He Hcl. rewrite (same_class _ _ (Hf e)) in Hcl.
    destruct (inv_end_closed _ _ _ _ _ Hinv e He Hcl) as [b Hbe].
    destruct (inv_closed _ _ _ _ _ Hinv b e Hbe)
      as (Hb & _ & _ & Hbc & _ & _ & _ & Hbegin & Hend).
    exists b. repeat split; try assumption.
    now rewrite (same_class _ _ (Hf b)).
Qed.

(** C6: whenever [read] returns, on an input whose tokens come in file
    order, the output list holds as many BEGIN markers as END markers;
    every BEGIN marker in it has a resolved range whose end line is at
    least its begin line; and every END marker in it records the begin
    and end line of the BEGIN marker it closed. *)
Theorem accepted_ranges_are_matched
    (scan : string -> option string -> error + list Marker)
    (get_lines_count : string -> Z)
    (input_string : string) (file_path : option string)
    (h : heap) (info : SourceFileTraceabilityInfo) :
  (forall tokens,
     scan input_string file_path = inr tokens -> lines_ascending tokens) ->
  read scan get_lines_count input_string file_path = inr (h, info) ->
  let ms := default [] (markers info) in
  count_class h (RangeMarker BeginFlag) ms
  = count_class h (RangeMarker EndFlag) ms
  /\ (forall b, b ∈ ms -> class (h !!! b) = RangeMarker BeginFlag ->
        exists lb le,
          ng_range_line_begin (h !!! b) = Some lb
          /\ ng_range_line_end (h !!! b) = Some le
          /\ lb <= le)
  /\ (forall e, e ∈ ms -> class (h !!! e) = RangeMarker EndFlag ->
        exists tokens b,
          scan input_string file_path = inr tokens
          /\ closed_by tokens (get_lines_count input_string) b e
          /\ b ∈ ms
          /\ class (h !!! b) = RangeMarker BeginFlag
          /\ ng_range_line_begin (h !!! e) = ng_range_line_begin (h !!! b)
          /\ ng_range_line_end (h !!! e) = ng_range_line_end (h !!! b)).
Proof.
  intros Hscan Hread. unfold read in Hread.
  destruct (String.length input_string =? 0)%nat.
  - injection Hread as <- <-. cbn.
    repeat split; intros x Hx; now apply elem_of_nil in Hx.
  - destruct (scan input_string file_path) as [e|tokens] eqn:Htokens;
      [discriminate|].
    destruct (process_model_matched _ _ _ _ (Hscan tokens eq_refl) Hread)
      as (ms & Hms & Hcount & Hbegin & Hend).
    rewrite Hms. cbn [default]. split; [assumption|]. split; [assumption|].
    intros e He Hcl. destruct (Hend e He Hcl) as (b & Hb).
    exists tokens, b. split; [reflexivity|assumption].
Qed.

Lemma accepted_ranges_are_matched_witness :
  let h := Samples.parsed_heap Samples.two_ranges 10 in
  let ms := default [] (markers (Samples.parsed_info Samples.two_ranges 10)) in
  count_class h (RangeMarker BeginFlag) ms
  = count_class h (RangeMarker EndFlag) ms.
Proof.
  assert (Hs : forall tokens,
             inr (A := error) Samples.two_ranges = inr tokens ->
             lines_ascending tokens).
  { intros tokens [= <-].
    unfold lines_ascending. cbn. repeat constructor; lia. }
  assert (Hm : read (fun _ _ => inr Samples.two_ranges) (fun _ => 10)
                 "source text" None
               = inr (Samples.parsed_heap Samples.two_ranges 10,
                      Samples.parsed_info Samples.two_ranges 10))
    by (vm_compute; reflexivity).
  exact (proj1 (accepted_ranges_are_matched
                  (fun _ _ => inr Samples.two_ranges) (fun _ => 10)
                  "source text" None _ _ Hs Hm)).
Defined.

(** ** Unmatched ranges *)

Lemma unmatched_lines (h0 h : heap) (rs : list ref) :
  (forall x, same_token (h !!! x) (h0 !!! x)) ->
  map loc_line (map get_location (map (fun r => h !!! r) rs))
  = map (line_of h0) rs.
Proof.
  intros Hf. rewrite !map_map. apply map_ext. intros r.
  unfold line_of. now rewrite (same_location _ _ (Hf r)).
Qed.

(** The error of the end-of-input step on a non-empty stack. *)
Lemma process_model_unmatched
    (tokens : list Marker) (total : Z) (h : heap) (c : ParseContext)
    (bottom : ref) (others : list ref) :
  process_parts (heap_of tokens) (ParseContext_init total) (refs_of tokens)
  = inr (h, c) ->
  marker_stack c = bottom :: others ->
  let location := get_location (heap_of tokens !!! bottom) in
  exists e,
    process_model tokens (ParseContext_init total) = inl (SemanticError e)
    /\ title e = "Unmatched @sdoc keyword found in source file."
    /\ line e = Some (loc_line location)
    /\ col e = Some (loc_col location)
    /\ file_path e = loc_filename location
    /\ class (heap_of tokens !!! bottom) = RangeMarker BeginFlag
    /\ (forall r, r ∈ others -> (bottom < r)%nat)
    /\ hint e
       = match others with
         | [] => None
         | _ :: _ =>
             Some ("The @sdoc keywords are also unmatched on lines: "
                   +:+ Py.repr_int_list (map (line_of (heap_of tokens)) others)
                   +:+ ".")
         end.
Proof.
  intros Hrun Hstack location.
  pose proof (invariant_tokens _ _ _ _ Hrun) as Hinv.
  pose proof (inv_frozen _ _ _ _ _ Hinv) as Hf.
  unfold process_model. rewrite Hrun.
  unfold source_file_traceability_info_processor. rewrite Hstack.
  cbn [length Nat.ltb Nat.leb].
  unfold create_unmatch_range_error. cbn [map length].
  eexists. split; [reflexivity|].
  cbn [title line col file_path hint].
  rewrite (same_location _ _ (Hf bottom)).
  repeat split.
  - apply (inv_stack_begin _ _ _ _ _ Hinv). rewrite Hstack. now left.
  - intros r Hr. pose proof (inv_stack_sorted _ _ _ _ _ Hinv) as Hs.
    rewrite Hstack in Hs. apply StronglySorted_inv in Hs as [_ Hall].
    rewrite Forall_forall in Hall. now apply Hall.
  - destruct others as [|r others]; [reflexivity|].
    cbn [length Nat.ltb Nat.leb].
    now rewrite <- (unmatched_lines _ _ (r :: others) Hf).
Qed.

(** C2: when the tokens of a text were processed without error and
    markers are left on the stack, [read] raises the unmatched-range
    error.  Its location is the one of the marker at the bottom of the
    stack, a BEGIN marker that was opened before every other marker left
    on the stack.  With other markers left the hint lists their lines,
    in the order of the stack; with none the hint is absent. *)
Theorem unmatched_range_reports_earliest
    (scan : string -> option string -> error + list Marker)
    (get_lines_count : string -> Z)
    (input_string : string) (file_path : option string)
    (tokens : list Marker) (h : heap) (c : ParseContext)
    (bottom : ref) (others : list ref) :
  input_string <> "" ->
  scan input_string file_path = inr tokens ->
  process_parts (heap_of tokens)
    (ParseContext_init (get_lines_count input_string)) (refs_of tokens)
  = inr (h, c) ->
  marker_stack c = bottom :: others ->
  let location := get_location (heap_of tokens !!! bottom) in
  exists e,
    read scan get_lines_count input_string file_path
    = inl (SemanticError e)
    /\ title e = "Unmatched @sdoc keyword found in source file."
    /\ line e = Some (loc_line location)
    /\ col e = Some (loc_col location)
    /\ ErrorHandling.file_path e = loc_filename location
    /\ class (heap_of tokens !!! bottom) = RangeMarker BeginFlag
    /\ (forall r, r ∈ others -> (bottom < r)%nat)
    /\ hint e
       = match others with
         | [] => None
         | _ :: _ =>
             Some ("The @sdoc keywords are also unmatched on lines: "
                   +:+ Py.repr_int_list (map (line_of (heap_of tokens)) others)
                   +:+ ".")
         end.
Proof.
  intros Hne Hscan Hrun Hstack location.
  destruct (process_model_unmatched _ _ _ _ _ _ Hrun Hstack) as (e & He & H).
  exists e. split; [|exact H].
  unfold read. destruct input_string as [|a s]; [contradiction|].
  cbn [String.length Nat.eqb]. now rewrite Hscan.
Qed.

Lemma unmatched_range_reports_earliest_witness :
  exists e,
    read (fun _ _ => inr Samples.three_open) (fun _ => 10) "source text" None
    = inl (SemanticError e)
    /\ line e = Some 2
    /\ hint e
       = Some "The @sdoc keywords are also unmatched on lines: [3, 5].".
Proof.
  assert (Hne : "source text" <> "") by discriminate.
  assert (Hrun : process_parts (heap_of Samples.three_open)
                   (ParseContext_init 10) (refs_of Samples.three_open)
                 = inr (Samples.heap_after Samples.three_open 10,
                        Samples.context_after Samples.three_open 10))
    by (vm_compute; reflexivity).
  assert (Hstack : marker_stack (Samples.context_after Samples.three_open 10)
                   = [0%nat; 1%nat; 2%nat])
    by (vm_compute; reflexivity).
  destruct (unmatched_range_reports_earliest
              (fun _ _ => inr Samples.three_open) (fun _ => 10)
              "source text" None Samples.three_open _ _ 0%nat [1%nat; 2%nat]
              Hne eq_refl Hrun Hstack)
    as (e & He & _ & Hl & _ & _ & _ & _ & Hh).
  exists e. split; [exact He|]. split; [exact Hl|exact Hh].
Defined.

(** * Further properties *)

Import Trace.

(** ** The index *)

Lemma occurrences_cons (req a : string) (ids : list string) :
  occurrences req (a :: ids)
  = ((if decide (a = req) then 1 else 0) + occurrences req ids)%nat.
Proof.
  unfold occurrences. rewrite filter_cons. now case_decide.
Qed.

Lemma index_marker_lookup (r : ref) (ids : list string)
    (m : gmap string (list ref)) (req : string) :
  index_marker r ids m !! req
  = match occurrences req ids with
    | O => m !! req
    | S n => Some (default [] (m !! req) ++ replicate (S n) r)
    end.
Proof.
  revert m. induction ids as [|a ids IH]; intros m; [reflexivity|].
  unfold index_marker in *. cbn [foldl]. rewrite IH, occurrences_cons.
  destruct (decide (a = req)) as [->|Hne].
  - rewrite lookup_insert_eq. cbn [default Nat.add].
    destruct (occurrences req ids) as [|n]; [reflexivity|].
    unfold id. now rewrite <- app_assoc.
  - rewrite lookup_insert_ne by assumption. reflexivity.
Qed.

Lemma index_entries_snoc (h : heap) (ms : list ref) (k : ref) (req : string) :
  index_entries h (ms ++ [k]) req
  = index_entries h ms req
    ++ (if is_begin (h !!! k)
        then replicate (occurrences req (reqs (h !!! k))) k
        else []).
Proof.
  unfold index_entries. rewrite flat_map_app. cbn [flat_map].
  now rewrite app_nil_r.
Qed.

Lemma index_lookup_default (h : heap) (ms : list ref) (req : string) :
  default [] (index_lookup h ms req) = index_entries h ms req.
Proof. unfold index_lookup. now destruct (index_entries h ms req). Qed.

Lemma index_lookup_accept (h : heap) (ms : list ref) (k : ref)
    (m : gmap string (list ref)) (req : string) :
  is_begin (h !!! k) = true ->
  m !! req = index_lookup h ms req ->
  index_marker k (reqs (h !!! k)) m !! req = index_lookup h (ms ++ [k]) req.
Proof.
  intros Hb Hm. rewrite index_marker_lookup.
  unfold index_lookup at 1. rewrite index_entries_snoc, Hb.
  destruct (occurrences req (reqs (h !!! k))) as [|n].
  - cbn [replicate]. rewrite app_nil_r. exact Hm.
  - rewrite Hm, index_lookup_default.
    destruct (index_entries h ms req ++ replicate (S n) k) eqn:He;
      [|reflexivity].
    apply app_eq_nil in He as [_ He]. discriminate.
Qed.

Lemma index_lookup_skip (h : heap) (ms : list ref) (k : ref) (req : string) :
  is_begin (h !!! k) = false ->
  index_lookup h (ms ++ [k]) req = index_lookup h ms req.
Proof.
  intros Hb. unfold index_lookup. rewrite index_entries_snoc, Hb.
  now rewrite app_nil_r.
Qed.

(** ** The second part of the invariant is preserved *)

Lemma begin_heap_source (h : heap) (k : ref) :
  ng_source_line_begin (begin_heap h k !!! k) = Some (line_of h k).
Proof. unfold begin_heap. heap_cases. Qed.

Lemma end_heap_source_self (h : heap) (k top : ref) :
  ng_source_line_begin (end_heap h k top !!! k) = Some (line_of h k).
Proof. unfold end_heap. heap_cases. Qed.

Lemma end_heap_source_other (h : heap) (k top r : ref) :
  r <> k ->
  ng_source_line_begin (end_heap h k top !!! r)
  = ng_source_line_begin (h !!! r).
Proof. intros Hr. unfold end_heap. heap_cases. Qed.

Lemma line_heap_self (h : heap) (k : ref) :
  ng_source_line_begin (line_heap h k !!! k) = Some (line_of h k)
  /\ ng_range_line_begin (line_heap h k !!! k) = Some (line_of h k)
  /\ ng_range_line_end (line_heap h k !!! k) = Some (line_of h k).
Proof. unfold line_heap. repeat split; heap_cases. Qed.

Lemma closed_lt h0 k h c closed p :
  Spec.invariant h0 k h c closed -> p ∈ closed ->
  (fst p < snd p)%nat /\ (snd p < k)%nat.
Proof.
  intros Hinv Hp. destruct p as [i j].
  destruct (inv_closed _ _ _ _ _ Hinv i j Hp) as (_ & Hj & Hij & _).
  split; [exact Hij|]. exact (inv_markers_lt _ _ _ _ _ Hinv j Hj).
Qed.

Lemma trace_nodoc_begin h0 k h c closed :
  Spec.invariant h0 k h c closed ->
  trace_invariant h0 h c closed ->
  trace_invariant h0 h (with_stack c (marker_stack c ++ [k])) closed.
Proof.
  intros Hinv []. split; cbn [with_stack ctx_markers marker_stack
                                map_reqs_to_markers]; try assumption.
  intros p r Hp Hr. elems; [auto|].
  right. now apply (closed_lt _ _ _ _ _ _ Hinv).
Qed.

Lemma trace_nodoc_end h0 h c closed rest top :
  trace_invariant h0 h c closed ->
  marker_stack c = rest ++ [top] ->
  trace_invariant h0 h (with_stack c rest) closed.
Proof.
  intros [] Hstack. split; cbn [with_stack ctx_markers marker_stack
                                   map_reqs_to_markers]; try assumption.
  intros p r Hp Hr. apply inv_stack_outside0; [assumption|].
  rewrite Hstack. apply elem_of_app. now left.
Qed.

Lemma trace_begin h0 k h c closed :
  Spec.invariant h0 k h c closed ->
  trace_invariant h0 h c closed ->
  class (h0 !!! k) = RangeMarker BeginFlag ->
  trace_invariant h0 (begin_heap h k)
    (mkParseContext (lines_total c) (ctx_markers c ++ [k])
       (marker_stack c ++ [k])
       (index_marker k (reqs (h !!! k)) (map_reqs_to_markers c)))
    closed.
Proof.
  intros Hinv [] Hc.
  pose proof (inv_frozen _ _ _ _ _ Hinv) as Hf.
  assert (Hml : forall r, r ∈ ctx_markers c -> r <> k).
  { intros r Hr. pose proof (inv_markers_lt _ _ _ _ _ Hinv r Hr). lia. }
  split; cbn [ctx_markers marker_stack map_reqs_to_markers].
  - apply stack_sorted_push; [assumption|].
    exact (inv_markers_lt _ _ _ _ _ Hinv).
  - intros req. rewrite (same_reqs _ _ (Hf k)).
    apply index_lookup_accept; [|auto].
    unfold is_begin. now rewrite Hc.
  - intros x Hx. apply not_elem_of_app in Hx as [Hx Hxk].
    rewrite begin_heap_other; [auto|].
    intros ->. apply Hxk. now left.
  - intros r Hr. elems.
    + rewrite begin_heap_other by auto. auto.
    + rewrite begin_heap_source. f_equal. now apply line_of_frozen.
  - intros r Hr Hcl. elems; [|congruence].
    rewrite begin_heap_other by auto. auto.
  - intros p r Hp Hr. elems; [auto|].
    right. now apply (closed_lt _ _ _ _ _ _ Hinv).
  - assumption.
  - intros p Hp. rewrite begin_heap_other; [auto|].
    apply Hml. destruct p as [i j].
    now destruct (inv_closed _ _ _ _ _ Hinv i j Hp) as (Hi & _).
Qed.

Lemma trace_line h0 k h c closed :
  Spec.invariant h0 k h c closed ->
  trace_invariant h0 h c closed ->
  class (h0 !!! k) = LineMarker ->
  trace_invariant h0 (line_heap h k)
    (mkParseContext (lines_total c) (ctx_markers c ++ [k])
       (marker_stack c)
       (index_marker k (reqs (h !!! k)) (map_reqs_to_markers c)))
    closed.
Proof.
  intros Hinv [] Hc.
  pose proof (inv_frozen _ _ _ _ _ Hinv) as Hf.
  assert (Hml : forall r, r ∈ ctx_markers c -> r <> k).
  { intros r Hr. pose proof (inv_markers_lt _ _ _ _ _ Hinv r Hr). lia. }
  destruct (line_heap_self h k) as (Hs & Hb & He).
  rewrite (line_of_frozen _ _ _ Hf) in Hs, Hb, He.
  split; cbn [ctx_markers marker_stack map_reqs_to_markers].
  - apply stack_sorted_push; [assumption|].
    exact (inv_markers_lt _ _ _ _ _ Hinv).
  - intros req. rewrite (same_reqs _ _ (Hf k)).
    apply index_lookup_accept; [|auto].
    unfold is_begin. now rewrite Hc.
  - intros x Hx. apply not_elem_of_app in Hx as [Hx Hxk].
    rewrite line_heap_other; [auto|].
    intros ->. apply Hxk. now left.
  - intros r Hr. elems; [|assumption].
    rewrite line_heap_other by auto. auto.
  - intros r Hr Hcl. elems; [|now split].
    rewrite line_heap_other by auto. auto.
  - assumption.
  - assumption.
  - intros p Hp. rewrite line_heap_other; [auto|].
    apply Hml. destruct p as [i j].
    now destruct (inv_closed _ _ _ _ _ Hinv i j Hp) as (Hi & _).
Qed.

Lemma trace_end h0 k h c closed rest top :
  Spec.invariant h0 k h c closed ->
  trace_invariant h0 h c closed ->
  class (h0 !!! k) = RangeMarker EndFlag ->
  marker_stack c = rest ++ [top] ->
  ng_is_nodoc (h0 !!! top) = false ->
  trace_invariant h0 (end_heap h k top)
    (mkParseContext (lines_total c) (ctx_markers c ++ [k]) rest
       (map_reqs_to_markers c))
    (closed ++ [(top, k)]).
Proof.
  intros Hinv [] Hc Hstack Htn.
  pose proof (inv_frozen _ _ _ _ _ Hinv) as Hf.
  assert (Hml : forall r, r ∈ ctx_markers c -> r <> k).
  { intros r Hr. pose proof (inv_markers_lt _ _ _ _ _ Hinv r Hr). lia. }
  assert (Hin_top : top ∈ marker_stack c).
  { rewrite Hstack. apply elem_of_app. right. now left. }
  destruct (inv_stack_open _ _ _ _ _ Hinv top Hin_top Htn) as [Htm _].
  pose proof (inv_stack_begin _ _ _ _ _ Hinv top Hin_top) as Htc.
  pose proof (inv_stack_lt _ _ _ _ _ Hinv top Hin_top) as Htk.
  assert (Hrest : forall r, r ∈ rest -> r ∈ marker_stack c).
  { intros r Hr. rewrite Hstack. apply elem_of_app. now left. }
  assert (Hrt : forall r, r ∈ rest -> (r < top)%nat).
  { intros r Hr. pose proof (inv_stack_sorted _ _ _ _ _ Hinv) as Hs.
    rewrite Hstack in Hs.
    eapply (StronglySorted_app_1_elem_of lt); eauto. now left. }
  clear Hin_top.
  split; cbn [ctx_markers marker_stack map_reqs_to_markers].
  - apply stack_sorted_push; [assumption|].
    exact (inv_markers_lt _ _ _ _ _ Hinv).
  - intros req. rewrite index_lookup_skip; [auto|].
    unfold is_begin. now rewrite Hc.
  - intros x Hx. apply not_elem_of_app in Hx as [Hx Hxk].
    rewrite end_heap_other; [auto| |].
    + intros ->. apply Hxk. now left.
    + intros ->. contradiction.
  - intros r Hr. elems.
    + rewrite end_heap_source_other by auto. auto.
    + rewrite end_heap_source_self. f_equal. now apply line_of_frozen.
  - intros r Hr Hcl. elems; [|congruence].
    rewrite end_heap_other; [auto|auto|]. intros ->. congruence.
  - intros p r Hp Hr. elems.
    + auto.
    + left. cbn. auto.
  - intros p q Hp Hq.
    apply elem_of_app in Hp as [Hp|Hp]; apply elem_of_app in Hq as [Hq|Hq].
    + auto.
    + apply list_elem_of_singleton in Hq. subst q.
      destruct (closed_lt _ _ _ _ _ _ Hinv Hp) as [_ Hpk].
      destruct (inv_stack_outside0 p top Hp) as [H|H].
      { rewrite Hstack. apply elem_of_app. right. now left. }
      * right. right. right. left. cbn. split; assumption.
      * left. exact H.
    + apply list_elem_of_singleton in Hp. subst p.
      destruct (closed_lt _ _ _ _ _ _ Hinv Hq) as [_ Hqk].
      destruct (inv_stack_outside0 q top Hq) as [H|H].
      { rewrite Hstack. apply elem_of_app. right. now left. }
      * right. right. left. cbn. split; assumption.
      * right. left. exact H.
    + apply list_elem_of_singleton in Hp, Hq. subst.
      right. right. right. right. reflexivity.
  - intros p Hp. apply elem_of_app in Hp as [Hp|Hp].
    + destruct p as [i j].
      destruct (inv_closed _ _ _ _ _ Hinv i j Hp)
        as (Hi & _ & _ & _ & _ & Hnot & _).
      rewrite end_heap_other; [auto|auto|].
      cbn. intros ->. apply Hnot. rewrite Hstack.
      apply elem_of_app. right. now left.
    + apply list_elem_of_singleton in Hp. subst p. cbn [fst snd].
      rewrite end_heap_top_begin, end_heap_top_end by lia.
      rewrite (line_of_frozen _ _ _ Hf). split; [|reflexivity].
      rewrite Hstack in *.
      apply (inv_stack_open _ _ _ _ _ Hinv top); [|assumption].
      rewrite Hstack. apply elem_of_app. right. now left.
Qed.

Lemma trace_step h0 k h c closed h' c' :
  Spec.invariant h0 k h c closed ->
  trace_invariant h0 h c closed ->
  process_part h c k = inr (h', c') ->
  trace_invariant h0 h' c' (closed ++ closing h c k).
Proof.
  intros Hinv Htr Hstep.
  destruct (inv_frozen _ _ _ _ _ Hinv k) as [Hc Hr Hn _].
  unfold process_part in Hstep.
  destruct (class (h !!! k)) as [[|]|] eqn:Hclass.
  - assert (Hb : is_begin (h !!! k) = true)
      by (unfold is_begin; now rewrite Hclass).
    assert (He : is_end (h !!! k) = false)
      by (unfold is_end; now rewrite Hclass).
    rewrite (closing_not_end _ _ _ He), app_nil_r.
    destruct (ng_is_nodoc (h !!! k)) eqn:Hnodoc.
    + rewrite range_nodoc_begin in Hstep by assumption.
      injection Hstep as <- <-. now apply (trace_nodoc_begin _ k).
    + destruct (top_is_nodoc h c) eqn:Ht.
      * rewrite range_suppressed in Hstep by assumption.
        now injection Hstep as <- <-.
      * rewrite range_begin in Hstep by assumption.
        injection Hstep as <- <-. now apply trace_begin.
  - assert (He : is_end (h !!! k) = true)
      by (unfold is_end; now rewrite Hclass).
    destruct (ng_is_nodoc (h !!! k)) eqn:Hnodoc.
    + rewrite (closing_nodoc _ _ _ Hnodoc), app_nil_r.
      rewrite range_nodoc_end in Hstep by assumption.
      destruct (pop (marker_stack c)) as [[top rest]|] eqn:Hpop;
        [|discriminate].
      apply pop_Some in Hpop.
      destruct (negb (ng_is_nodoc (h !!! top)) || is_end (h !!! top));
        [discriminate|].
      injection Hstep as <- <-. now apply (trace_nodoc_end _ _ _ _ rest top).
    + destruct (top_is_nodoc h c) eqn:Ht.
      * rewrite (closing_suppressed _ _ _ Ht), app_nil_r.
        rewrite range_suppressed in Hstep by assumption.
        now injection Hstep as <- <-.
      * rewrite range_end in Hstep by assumption.
        destruct (pop (marker_stack c)) as [[top rest]|] eqn:Hpop;
          [|discriminate].
        apply pop_Some in Hpop.
        case_bool_decide as Hreqs; [discriminate|].
        injection Hstep as <- <-.
        rewrite (closing_end _ _ _ rest top) by assumption.
        rewrite (top_is_nodoc_snoc _ _ _ _ Hpop) in Ht.
        destruct (inv_frozen _ _ _ _ _ Hinv top) as [_ _ Hnt _].
        apply (trace_end _ k); auto; congruence.
  - assert (He : is_end (h !!! k) = false)
      by (unfold is_end; now rewrite Hclass).
    rewrite (closing_not_end _ _ _ He), app_nil_r.
    destruct (top_is_nodoc h c) eqn:Ht.
    + rewrite line_suppressed in Hstep by assumption.
      now injection Hstep as <- <-.
    + rewrite line_accepted in Hstep by assumption.
      injection Hstep as <- <-. now apply trace_line.
Qed.

Lemma trace_run h0 m :
  forall k h c closed h' c',
    Spec.invariant h0 k h c closed ->
    trace_invariant h0 h c closed ->
    process_parts h c (seq k m) = inr (h', c') ->
    trace_invariant h0 h' c' (closed ++ closings h c (seq k m)).
Proof.
  induction m as [|m IH]; intros k h c closed h' c' Hinv Htr Hrun.
  - cbn in *. injection Hrun as <- <-. now rewrite app_nil_r.
  - cbn [seq process_parts closings] in *.
    destruct (process_part h c k) as [e|[h1 c1]] eqn:Hstep; [discriminate|].
    rewrite app_assoc.
    apply (IH (S k) h1 c1); [| |assumption].
    + now apply invariant_step.
    + now apply (trace_step _ k).
Qed.

Lemma trace_init h0 total :
  trace_invariant h0 h0 (ParseContext_init total) [].
Proof.
  split; cbn; try (intros; match goal with
                            | H : _ ∈ [] |- _ => now apply elem_of_nil in H
                            end).
  - constructor.
  - intros req. unfold index_lookup. cbn. apply lookup_empty.
  - reflexivity.
Qed.

Lemma trace_tokens tokens total h c :
  process_parts (heap_of tokens) (ParseContext_init total) (refs_of tokens)
  = inr (h, c) ->
  trace_invariant (heap_of tokens) h c
    (closings (heap_of tokens) (ParseContext_init total) (refs_of tokens)).
Proof.
  intros Hrun.
  apply (trace_run (heap_of tokens) (length tokens) 0%nat
           _ _ [] _ _ (invariant_init _ total) (trace_init _ total) Hrun).
Qed.

(** The whole run keeps the number of lines of the context. *)
Lemma process_part_lines_total h c k h' c' :
  process_part h c k = inr (h', c') -> lines_total c' = lines_total c.
Proof.
  unfold process_part, range_marker_processor, line_marker_processor.
  cbv zeta.
  repeat match goal with
    | |- context [match ?x with _ => _ end] =>
        lazymatch x with
        | context [match _ with _ => _ end] => fail
        | _ => destruct x eqn:?
        end
    end; intros [= <- <-]; reflexivity.
Qed.

(** ** What a successful parse returns *)

Lemma mixed_run :
  process_parts (heap_of MoreSamples.mixed) (ParseContext_init 10)
    (refs_of MoreSamples.mixed)
  = inr (Samples.heap_after MoreSamples.mixed 10,
         Samples.context_after MoreSamples.mixed 10).
Proof. vm_compute. reflexivity. Qed.

Lemma mixed_parsed :
  process_model MoreSamples.mixed (ParseContext_init 10)
  = inr (Samples.parsed_heap MoreSamples.mixed 10,
         Samples.parsed_info MoreSamples.mixed 10).
Proof. vm_compute. reflexivity. Qed.

Lemma mixed_ascending : lines_ascending MoreSamples.mixed.
Proof. unfold lines_ascending. cbn. repeat constructor; lia. Qed.

Lemma index_lookup_frozen (h0 h : heap) (ms : list ref) (req : string) :
  (forall x, same_token (h !!! x) (h0 !!! x)) ->
  index_lookup h ms req = index_lookup h0 ms req.
Proof.
  intros Hf. unfold index_lookup, index_entries.
  replace (flat_map _ ms) with
    (flat_map (fun r => if is_begin (h0 !!! r)
                        then replicate (occurrences req (reqs (h0 !!! r))) r
                        else []) ms); [reflexivity|].
  apply flat_map_ext. intros r.
  rewrite (is_begin_class _ _ (same_class _ _ (Hf r))).
  now rewrite (same_reqs _ _ (Hf r)).
Qed.

(** X1: after a successful parse the index maps every requirement id to
    the accepted BEGIN and line markers that list it, in file order, a
    marker once for every time it lists the id; END markers are not
    indexed, and an id that no accepted BEGIN or line marker lists has
    no key. *)
Theorem index_lists_accepted_markers
    (tokens : list Marker) (total : Z)
    (h : heap) (info : SourceFileTraceabilityInfo) :
  process_model tokens (ParseContext_init total) = inr (h, info) ->
  exists ms index,
    markers info = Some ms
    /\ ng_map_reqs_to_markers info = Some index
    /\ forall req, index !! req = index_lookup h ms req.
Proof.
  intros Hmodel.
  destruct (process_model_success _ _ _ _ Hmodel)
    as (c & Hrun & _ & Hmarkers & Hindex).
  pose proof (invariant_tokens _ _ _ _ Hrun) as Hinv.
  pose proof (trace_tokens _ _ _ _ Hrun) as Htr.
  exists (ctx_markers c), (map_reqs_to_markers c).
  split; [assumption|]. split; [assumption|].
  intros req.
  rewrite (index_lookup_frozen _ _ _ _ (inv_frozen _ _ _ _ _ Hinv)).
  apply (inv_index _ _ _ _ Htr).
Qed.

Lemma index_lists_accepted_markers_witness :
  exists ms index,
    markers (Samples.parsed_info MoreSamples.mixed 10) = Some ms
    /\ ng_map_reqs_to_markers (Samples.parsed_info MoreSamples.mixed 10)
       = Some index
    /\ forall req,
         index !! req
         = index_lookup (Samples.parsed_heap MoreSamples.mixed 10) ms req.
Proof.
  exact (index_lists_accepted_markers _ _ _ _ mixed_parsed).
Defined.

Lemma sorted_lt_NoDup (l : list nat) : StronglySorted lt l -> NoDup l.
Proof.
  induction 1 as [|a l Hs IH Hall]; constructor; [|assumption].
  intros Hin. rewrite Forall_forall in Hall.
  specialize (Hall a Hin). lia.
Qed.

Lemma heap_of_token (tokens : list Marker) (r : ref) :
  (r < length tokens)%nat -> tokens !! r = Some (heap_of tokens !!! r).
Proof.
  intros Hr. destruct (lookup_lt_is_Some_2 tokens r Hr) as [m Hm].
  now rewrite (heap_of_lookup _ _ _ Hm).
Qed.

(** X2: the output list of a successful parse holds scanned markers
    only, with the token data they were scanned with, in file order and
    each at most once, and no nodoc range marker is among them. *)
Theorem output_list_in_file_order
    (tokens : list Marker) (total : Z)
    (h : heap) (info : SourceFileTraceabilityInfo) :
  process_model tokens (ParseContext_init total) = inr (h, info) ->
  exists ms,
    markers info = Some ms
    /\ StronglySorted lt ms
    /\ NoDup ms
    /\ (forall r, r ∈ ms ->
          exists m, tokens !! r = Some m /\ same_token (h !!! r) m)
    /\ (forall r, r ∈ ms -> class (h !!! r) <> LineMarker ->
          ng_is_nodoc (h !!! r) = false).
Proof.
  intros Hmodel.
  destruct (process_model_success _ _ _ _ Hmodel)
    as (c & Hrun & _ & Hmarkers & _).
  pose proof (invariant_tokens _ _ _ _ Hrun) as Hinv.
  pose proof (trace_tokens _ _ _ _ Hrun) as Htr.
  pose proof (inv_frozen _ _ _ _ _ Hinv) as Hf.
  exists (ctx_markers c). split; [assumption|].
  split; [apply (inv_markers_sorted _ _ _ _ Htr)|].
  split; [apply sorted_lt_NoDup, (inv_markers_sorted _ _ _ _ Htr)|].
  split.
  - intros r Hr. exists (heap_of tokens !!! r). split; [|apply Hf].
    apply heap_of_token. exact (inv_markers_lt _ _ _ _ _ Hinv r Hr).
  - intros r Hr Hcl.
    rewrite (same_class _ _ (Hf r)) in Hcl.
    rewrite (same_nodoc _ _ (Hf r)).
    exact (inv_markers_ordinary _ _ _ _ _ Hinv r Hr Hcl).
Qed.

Lemma output_list_in_file_order_witness :
  exists ms,
    markers (Samples.parsed_info MoreSamples.mixed 10) = Some ms
    /\ StronglySorted lt ms.
Proof.
  destruct (output_list_in_file_order _ _ _ _ mixed_parsed)
    as (ms & Hm & Hs & _).
  exists ms. split; assumption.
Defined.

(** X3: a successful parse writes to accepted markers only.  Every
    marker of the output list has its own line as source line, and a
    line marker in it has its own line as begin and end of its range;
    every other object, such as a nodoc marker or a marker inside a
    nodoc block, is as the scanner made it. *)
Theorem only_accepted_markers_are_written
    (tokens : list Marker) (total : Z)
    (h : heap) (info : SourceFileTraceabilityInfo) :
  process_model tokens (ParseContext_init total) = inr (h, info) ->
  exists ms,
    markers info = Some ms
    /\ (forall r, r ∈ ms ->
          ng_source_line_begin (h !!! r)
          = Some (loc_line (get_location (h !!! r))))
    /\ (forall r, r ∈ ms -> class (h !!! r) = LineMarker ->
          ng_range_line_begin (h !!! r)
          = Some (loc_line (get_location (h !!! r)))
          /\ ng_range_line_end (h !!! r)
             = Some (loc_line (get_location (h !!! r))))
    /\ (forall x, x ∉ ms -> h !!! x = heap_of tokens !!! x).
Proof.
  intros Hmodel.
  destruct (process_model_success _ _ _ _ Hmodel)
    as (c & Hrun & _ & Hmarkers & _).
  pose proof (invariant_tokens _ _ _ _ Hrun) as Hinv.
  pose proof (trace_tokens _ _ _ _ Hrun) as Htr.
  pose proof (inv_frozen _ _ _ _ _ Hinv) as Hf.
  exists (ctx_markers c). split; [assumption|]. split; [|split].
  - intros r Hr. rewrite (same_location _ _ (Hf r)).
    exact (inv_source_line _ _ _ _ Htr r Hr).
  - intros r Hr Hcl. rewrite (same_location _ _ (Hf r)).
    rewrite (same_class _ _ (Hf r)) in Hcl.
    exact (inv_line_marker _ _ _ _ Htr r Hr Hcl).
  - exact (inv_untouched _ _ _ _ Htr).
Qed.

Lemma only_accepted_markers_are_written_witness :
  exists ms,
    markers (Samples.parsed_info MoreSamples.mixed 10) = Some ms
    /\ forall x, x ∉ ms ->
         Samples.parsed_heap MoreSamples.mixed 10 !!! x
         = heap_of MoreSamples.mixed !!! x.
Proof.
  destruct (only_accepted_markers_are_written _ _ _ _ mixed_parsed)
    as (ms & Hm & _ & _ & Hu).
  exists ms. split; assumption.
Defined.

(** X4: the ranges closed while the tokens are processed nest: two
    closed pairs of a BEGIN and an END marker are apart, or one lies
    strictly inside the other, or they are the same pair; so a BEGIN
    marker is closed by at most one END marker and an END marker closes
    at most one BEGIN marker. *)
Theorem closed_ranges_nest
    (tokens : list Marker) (total : Z) (h : heap) (c : ParseContext)
    (b e b' e' : ref) :
  process_parts (heap_of tokens) (ParseContext_init total) (refs_of tokens)
  = inr (h, c) ->
  closed_by tokens total b e ->
  closed_by tokens total b' e' ->
  well_nested (b, e) (b', e')
  /\ (b < e)%nat
  /\ (b = b' <-> e = e').
Proof.
  intros Hrun Hp Hq.
  pose proof (invariant_tokens _ _ _ _ Hrun) as Hinv.
  pose proof (trace_tokens _ _ _ _ Hrun) as Htr.
  pose proof (inv_nested _ _ _ _ Htr _ _ Hp Hq) as Hn.
  destruct (closed_lt _ _ _ _ _ _ Hinv Hp) as [Hbe _].
  destruct (closed_lt _ _ _ _ _ _ Hinv Hq) as [Hbe' _].
  cbn [fst snd] in *.
  split; [exact Hn|]. split; [exact Hbe|].
  unfold well_nested in Hn. cbn [fst snd] in Hn.
  destruct Hn as [H|[H|[[H1 H2]|[[H1 H2]|H]]]];
    try (split; intros; lia).
  injection H as -> ->. split; reflexivity.
Qed.

Lemma closed_ranges_nest_witness :
  well_nested (0%nat, 8%nat) (1%nat, 3%nat).
Proof.
  refine (proj1 (closed_ranges_nest MoreSamples.mixed 10 _ _
                   0%nat 8%nat 1%nat 3%nat mixed_run _ _));
    unfold closed_by; vm_compute; apply list_elem_of_In; cbn; auto.
Defined.

(** X5: a closed pair is an ordinary BEGIN marker and a later ordinary
    END marker with the same list of requirement ids, and while the
    tokens are processed the range of the BEGIN marker is the line of
    the BEGIN token to the line of the END token that closed it. *)
Theorem closed_pair_has_equal_ids
    (tokens : list Marker) (total : Z) (h : heap) (c : ParseContext)
    (b e : ref) :
  process_parts (heap_of tokens) (ParseContext_init total) (refs_of tokens)
  = inr (h, c) ->
  closed_by tokens total b e ->
  class (h !!! b) = RangeMarker BeginFlag
  /\ class (h !!! e) = RangeMarker EndFlag
  /\ ng_is_nodoc (h !!! b) = false
  /\ ng_is_nodoc (h !!! e) = false
  /\ reqs (h !!! b) = reqs (h !!! e)
  /\ ng_range_line_begin (h !!! b) = Some (loc_line (get_location (h !!! b)))
  /\ ng_range_line_end (h !!! b) = Some (loc_line (get_location (h !!! e)))
  /\ ng_range_line_begin (h !!! e) = Some (loc_line (get_location (h !!! b)))
  /\ ng_range_line_end (h !!! e) = Some (loc_line (get_location (h !!! e))).
Proof.
  intros Hrun Hp.
  pose proof (invariant_tokens _ _ _ _ Hrun) as Hinv.
  pose proof (trace_tokens _ _ _ _ Hrun) as Htr.
  pose proof (inv_frozen _ _ _ _ _ Hinv) as Hf.
  destruct (inv_closed _ _ _ _ _ Hinv b e Hp)
    as (Hb & He & _ & Hbc & Hec & _ & Hreqs & Hbegin & Hend).
  destruct (inv_closed_range _ _ _ _ Htr _ Hp) as [Hrb Hre].
  cbn [fst snd] in Hrb, Hre. unfold line_of in Hrb, Hre.
  rewrite !(same_class _ _ (Hf _)), !(same_nodoc _ _ (Hf _)).
  rewrite !(same_reqs _ _ (Hf _)), !(same_location _ _ (Hf _)).
  rewrite Hbegin, Hend.
  repeat split; try assumption.
  - apply (inv_markers_ordinary _ _ _ _ _ Hinv b Hb). congruence.
  - apply (inv_markers_ordinary _ _ _ _ _ Hinv e He). congruence.
Qed.

Lemma closed_pair_has_equal_ids_witness :
  reqs (Samples.heap_after MoreSamples.mixed 10 !!! 1%nat)
  = reqs (Samples.heap_after MoreSamples.mixed 10 !!! 3%nat).
Proof.
  refine (proj1 (proj2 (proj2 (proj2 (proj2
            (closed_pair_has_equal_ids MoreSamples.mixed 10 _ _
               1%nat 3%nat mixed_run _))))));
    unfold closed_by; vm_compute; apply list_elem_of_In; cbn; auto.
Defined.

(** ** What a parse can raise *)

Lemma process_part_error (h : heap) (c : ParseContext) (k : ref) x :
  process_part h c k = inl x ->
  exists e,
    x = SemanticError e
    /\ (title e = "STRICTDOC RANGE: BEGIN and END requirements mismatch"
        \/ title e
           = "STRICTDOC RANGE: END marker without preceding BEGIN marker").
Proof.
  unfold process_part.
  destruct (class (h !!! k)) as [[|]|] eqn:Hclass.
  - assert (Hb : is_begin (h !!! k) = true)
      by (unfold is_begin; now rewrite Hclass).
    destruct (ng_is_nodoc (h !!! k)) eqn:Hnodoc.
    + now rewrite range_nodoc_begin by assumption.
    + destruct (top_is_nodoc h c) eqn:Ht.
      * now rewrite range_suppressed by assumption.
      * now rewrite range_begin by assumption.
  - assert (He : is_end (h !!! k) = true)
      by (unfold is_end; now rewrite Hclass).
    destruct (ng_is_nodoc (h !!! k)) eqn:Hnodoc.
    + rewrite range_nodoc_end by assumption.
      destruct (pop (marker_stack c)) as [[top rest]|].
      * destruct (negb (ng_is_nodoc (h !!! top)) || is_end (h !!! top));
          [|discriminate].
        intros [= <-]. eexists. split; [reflexivity|]. now left.
      * intros [= <-]. eexists. split; [reflexivity|]. now right.
    + destruct (top_is_nodoc h c) eqn:Ht.
      * now rewrite range_suppressed by assumption.
      * rewrite range_end by assumption.
        destruct (pop (marker_stack c)) as [[top rest]|].
        -- case_bool_decide; [|discriminate].
           intros [= <-]. eexists. split; [reflexivity|]. now left.
        -- intros [= <-]. eexists. split; [reflexivity|]. now right.
  - destruct (top_is_nodoc h c) eqn:Ht.
    + now rewrite line_suppressed by assumption.
    + now rewrite line_accepted by assumption.
Qed.

Lemma process_parts_error (parts : list ref) :
  forall (h : heap) (c : ParseContext) x,
    process_parts h c parts = inl x ->
    exists e,
      x = SemanticError e
      /\ (title e = "STRICTDOC RANGE: BEGIN and END requirements mismatch"
          \/ title e
             = "STRICTDOC RANGE: END marker without preceding BEGIN marker").
Proof.
  induction parts as [|k parts IH]; intros h c x; cbn [process_parts];
    [discriminate|].
  destruct (process_part h c k) as [e|[h1 c1]] eqn:Hstep.
  - intros [= <-]. now apply (process_part_error h c k).
  - apply IH.
Qed.

Lemma process_parts_lines_total (parts : list ref) :
  forall (h : heap) (c : ParseContext) h' c',
    process_parts h c parts = inr (h', c') -> lines_total c' = lines_total c.
Proof.
  induction parts as [|k parts IH]; intros h c h' c'; cbn [process_parts].
  - now intros [= <- <-].
  - destruct (process_part h c k) as [e|[h1 c1]] eqn:Hstep; [discriminate|].
    intros Hrun. rewrite (IH _ _ _ _ Hrun).
    now apply (process_part_lines_total h c k h1).
Qed.

(** On an empty stack every marker that the coverage loop looks at is
    resolved. *)
Lemma matched_markers_resolved h0 k h c closed :
  Spec.invariant h0 k h c closed ->
  trace_invariant h0 h c closed ->
  marker_stack c = [] ->
  Spec.resolved h (ctx_markers c).
Proof.
  intros Hinv Htr Hstack r Hr Hn Hb.
  pose proof (inv_frozen _ _ _ _ _ Hinv r) as Hf.
  destruct (class (h0 !!! r)) as [[|]|] eqn:Hc.
  - destruct (inv_begin_closed _ _ _ _ _ Hinv r Hr Hc)
      as (j & _ & _ & H1 & H2).
    { rewrite Hstack. apply not_elem_of_nil. }
    rewrite H1, H2. split; eexists; reflexivity.
  - unfold is_begin in Hb. rewrite (same_class _ _ Hf), Hc in Hb.
    discriminate.
  - destruct (inv_line_marker _ _ _ _ Htr r Hr Hc) as [H1 H2].
    rewrite H1, H2. split; eexists; reflexivity.
Qed.

(** X6: whatever the tokens, a parse raises nothing but a semantic
    error with one of the three titles of the reader, a
    [ZeroDivisionError], and only for a total of zero lines, or an
    [OverflowError] of the float arithmetic.  The assertions of the
    coverage loop and of [create_unmatch_range_error] never fail, and
    [NotImplementedError] is not raised. *)
Theorem parse_raises_only_reader_errors
    (tokens : list Marker) (total : Z) (x : error) :
  process_model tokens (ParseContext_init total) = inl x ->
  (exists e,
     x = SemanticError e
     /\ (title e = "STRICTDOC RANGE: BEGIN and END requirements mismatch"
         \/ title e
            = "STRICTDOC RANGE: END marker without preceding BEGIN marker"
         \/ title e = "Unmatched @sdoc keyword found in source file."))
  \/ (x = ZeroDivisionError /\ total = 0)
  \/ x = OverflowError.
Proof.
  unfold process_model.
  destruct (process_parts _ _ _) as [y|[h c]] eqn:Hrun.
  - intros [= <-]. left.
    destruct (process_parts_error _ _ _ _ Hrun) as (e & -> & [H|H]);
      exists e; auto.
  - pose proof (invariant_tokens _ _ _ _ Hrun) as Hinv.
    pose proof (trace_tokens _ _ _ _ Hrun) as Htr.
    pose proof (process_parts_lines_total _ _ _ _ _ Hrun) as Htotal.
    cbn in Htotal.
    unfold source_file_traceability_info_processor.
    destruct (marker_stack c) as [|bottom others] eqn:Hstack.
    + cbn [length Nat.ltb Nat.leb].
      rewrite merge_markers_fold
        by (eapply matched_markers_resolved; eauto).
      unfold set_coverage_stats, coverage_percentage, truediv, round1.
      rewrite Htotal.
      destruct (Z.eqb_spec total 0) as [->|Hne]; [intros [= <-]; auto|].
      destruct (is_infinite _); [intros [= <-]; auto|].
      destruct (mul_int _ _) as [s| | |s m e]; try discriminate.
      destruct (round_half_even _ _); try discriminate.
      destruct (is_infinite _); [intros [= <-]; auto|discriminate].
    + cbn. intros [= <-]. left. eexists. split; [reflexivity|]. auto.
Qed.

Lemma parse_raises_only_reader_errors_witness :
  exists e,
    SemanticError
      (create_end_without_begin_error (Samples.at_line 2))
    = SemanticError e
    /\ title e
       = "STRICTDOC RANGE: END marker without preceding BEGIN marker".
Proof.
  assert (H : process_model Samples.lone_end (ParseContext_init 10)
              = inl (SemanticError
                       (create_end_without_begin_error (Samples.at_line 2))))
    by (vm_compute; reflexivity).
  destruct (parse_raises_only_reader_errors _ _ _ H)
    as [(e & He & [Ht|[Ht|Ht]])|[[Hz _]|Ho]];
    try discriminate.
  - exists e. split; [assumption|]. injection He as <-. reflexivity.
  - exists e. split; assumption.
  - injection He as <-. discriminate.
Defined.

(** ** The merging loop *)

Lemma merge_all_merge (ranges : list (Z * Z)) :
  merge_all ranges = Spec.merge ranges.
Proof. apply fold_merge_range_nil. Qed.

Lemma merge_from_head (current : Z * Z) (ranges : list (Z * Z)) :
  exists e rest,
    Spec.merge_from current ranges = (fst current, e) :: rest
    /\ snd current <= e.
Proof.
  revert current. induction ranges as [|[b e] ranges IH]; intros [cb ce].
  - exists ce, []. split; [reflexivity|]. cbn. lia.
  - cbn [Spec.merge_from fst snd]. destruct (b <=? ce + 1).
    + destruct (IH (cb, Z.max ce e)) as (e' & rest & -> & He).
      exists e', rest. split; [reflexivity|]. cbn in *. lia.
    + exists ce, (Spec.merge_from (b, e) ranges).
      split; [reflexivity|]. cbn. lia.
Qed.

Lemma merge_from_separated (current : Z * Z) (ranges : list (Z * Z)) :
  separated (Spec.merge_from current ranges).
Proof.
  revert current. induction ranges as [|[b e] ranges IH]; intros [cb ce].
  - cbn. auto.
  - cbn [Spec.merge_from fst snd]. destruct (Z.leb_spec b (ce + 1)).
    + apply IH.
    + destruct (merge_from_head (b, e) ranges) as (e' & rest & Heq & _).
      pose proof (IH (b, e)) as Hs. rewrite Heq in *.
      cbn [separated fst snd]. split; [lia|exact Hs].
Qed.

Lemma merge_from_fixed (current : Z * Z) (intervals : list (Z * Z)) :
  separated (current :: intervals) ->
  Spec.merge_from current intervals = current :: intervals.
Proof.
  revert current. induction intervals as [|[b e] l IH]; intros [cb ce] Hs;
    [reflexivity|].
  destruct Hs as [Hgap Hs]. cbn [fst snd] in Hgap.
  cbn [Spec.merge_from fst snd].
  destruct (Z.leb_spec b (ce + 1)); [lia|].
  now rewrite IH.
Qed.

Lemma merge_from_nonempty (current : Z * Z) (ranges : list (Z * Z)) :
  fst current <= snd current ->
  Forall (fun r => fst r <= snd r) ranges ->
  Forall (fun r => fst r <= snd r) (Spec.merge_from current ranges).
Proof.
  revert current. induction ranges as [|[b e] ranges IH];
    intros [cb ce] Hc Hall; cbn [fst snd] in *.
  - repeat constructor. assumption.
  - apply Forall_cons in Hall as [Hbe Hall]. cbn [fst snd] in Hbe.
    cbn [Spec.merge_from fst snd]. destruct (b <=? ce + 1).
    + apply IH; [cbn; lia|assumption].
    + constructor; [assumption|]. apply IH; assumption.
Qed.

(** X7: the intervals that the coverage loop yields are apart from each
    other, whatever the order of the ranges, and none is empty when no
    range is; running the merging loop on them again changes nothing, as
    on any list of intervals that are apart. *)
Theorem merge_is_idempotent (h : heap) (ms : list ref) :
  Spec.resolved h ms ->
  exists merged,
    merge_markers h ms [] = inr merged
    /\ merged = merge_all (Spec.covered_ranges h ms)
    /\ separated merged
    /\ merge_all merged = merged
    /\ (forall intervals,
          separated intervals -> merge_all intervals = intervals)
    /\ (Forall (fun r => fst r <= snd r) (Spec.covered_ranges h ms) ->
        Forall (fun r => fst r <= snd r) merged).
Proof.
  intros Hres.
  assert (Hfix : forall intervals,
             separated intervals -> merge_all intervals = intervals).
  { intros [|c l] Hs; [reflexivity|].
    rewrite merge_all_merge. now apply merge_from_fixed. }
  set (ranges := Spec.covered_ranges h ms).
  assert (Hsep : separated (merge_all ranges)).
  { rewrite merge_all_merge. destruct ranges as [|c l]; [exact I|].
    apply merge_from_separated. }
  exists (merge_all ranges).
  split; [now apply merge_markers_fold|]. split; [reflexivity|].
  split; [exact Hsep|]. split; [now apply Hfix|]. split; [exact Hfix|].
  intros Hall. rewrite merge_all_merge.
  destruct ranges as [|c l]; [constructor|].
  apply Forall_cons in Hall as [Hc Hall]. now apply merge_from_nonempty.
Qed.

Lemma sample_resolved :
  Spec.resolved (Samples.parsed_heap MoreSamples.mixed 10)
    [0%nat; 1%nat; 2%nat; 3%nat; 8%nat].
Proof.
  intros r Hr _ _. apply list_elem_of_In in Hr. cbn in Hr.
  destruct Hr as [<-|[<-|[<-|[<-|[<-|[]]]]]];
    vm_compute; split; eexists; reflexivity.
Qed.

Lemma merge_is_idempotent_witness :
  exists merged,
    merge_markers (Samples.parsed_heap MoreSamples.mixed 10)
      [0%nat; 1%nat; 2%nat; 3%nat; 8%nat] [] = inr merged
    /\ merge_all merged = merged.
Proof.
  destruct (merge_is_idempotent _ _ sample_resolved)
    as (merged & Hm & _ & _ & Hi & _).
  exists merged. split; assumption.
Defined.

Lemma merge_from_union (x : Z) (ranges : list (Z * Z)) :
  forall current,
    Forall (fun r => fst current <= fst r) ranges ->
    StronglySorted (fun p q => fst p <= fst q) ranges ->
    (Exists (in_interval x) (Spec.merge_from current ranges)
     <-> in_interval x current \/ Exists (in_interval x) ranges).
Proof.
  induction ranges as [|[b e] ranges IH]; intros [cb ce] Hlow Hsorted.
  - cbn [Spec.merge_from]. rewrite Exists_cons, Exists_nil. tauto.
  - apply Forall_cons in Hlow as [Hb Hlow].
    apply StronglySorted_inv in Hsorted as [Hsorted Hnext].
    cbn [fst snd] in *.
    cbn [Spec.merge_from fst snd]. rewrite (Exists_cons _ (b, e)).
    destruct (Z.leb_spec b (ce + 1)) as [Hle|Hgt].
    + rewrite IH; [|exact Hlow|exact Hsorted].
      unfold in_interval. cbn [fst snd]. split.
      * intros [H|H]; [|auto].
        destruct (Z.le_gt_cases x ce); [left; lia|right; left; lia].
      * intros [H|[H|H]]; [left; lia|left; lia|auto].
    + rewrite Exists_cons, IH; [tauto| |exact Hsorted].
      exact Hnext.
Qed.

(** X8: when the ranges of the markers come in ascending order of
    their begin lines, a line lies in an interval that the coverage loop
    yields exactly when it lies in the range of a marker that counts
    for the coverage: the loop neither loses nor invents a line. *)
Theorem merge_covers_same_lines (h : heap) (ms : list ref) :
  Spec.resolved h ms ->
  StronglySorted (fun p q => fst p <= fst q) (Spec.covered_ranges h ms) ->
  exists merged,
    merge_markers h ms [] = inr merged
    /\ forall x, Exists (in_interval x) merged <-> covered_by h ms x.
Proof.
  intros Hres Hsorted. exists (merge_all (Spec.covered_ranges h ms)).
  split; [now apply merge_markers_fold|].
  intros x. unfold covered_by. rewrite merge_all_merge.
  destruct (Spec.covered_ranges h ms) as [|c l]; [reflexivity|].
  apply StronglySorted_inv in Hsorted as [Hsorted Hnext].
  cbn [Spec.merge]. rewrite merge_from_union by assumption.
  now rewrite Exists_cons.
Qed.

Lemma merge_covers_same_lines_witness :
  exists merged,
    merge_markers (Samples.parsed_heap MoreSamples.mixed 10)
      [0%nat; 1%nat; 2%nat; 3%nat; 8%nat] [] = inr merged
    /\ (Exists (in_interval 5) merged
        <-> covered_by (Samples.parsed_heap MoreSamples.mixed 10)
              [0%nat; 1%nat; 2%nat; 3%nat; 8%nat] 5).
Proof.
  assert (Hs : StronglySorted (fun p q => fst p <= fst q)
                 (Spec.covered_ranges
                    (Samples.parsed_heap MoreSamples.mixed 10)
                    [0%nat; 1%nat; 2%nat; 3%nat; 8%nat])).
  { vm_compute. repeat constructor; discriminate. }
  destruct (merge_covers_same_lines _ _ sample_resolved Hs)
    as (merged & Hm & Hx).
  exists merged. split; [exact Hm|apply Hx].
Defined.

(** ** Counting covered lines *)

Lemma covered_lines_cons (i : Z * Z) (l : list (Z * Z)) :
  Spec.covered_lines (i :: l) = snd i - fst i + 1 + Spec.covered_lines l.
Proof. reflexivity. Qed.

Lemma merge_from_bound (hi : Z) (ranges : list (Z * Z)) :
  forall current,
    fst current <= snd current <= hi ->
    Forall (fun r => fst r <= snd r <= hi) ranges ->
    1 <= Spec.covered_lines (Spec.merge_from current ranges)
      <= hi - fst current + 1.
Proof.
  induction ranges as [|[b e] ranges IH]; intros [cb ce] Hc Hall;
    cbn [fst snd] in *.
  - cbn. lia.
  - apply Forall_cons in Hall as [Hbe Hall]. cbn [fst snd] in Hbe.
    cbn [Spec.merge_from fst snd].
    destruct (Z.leb_spec b (ce + 1)) as [Hle|Hgt].
    + specialize (IH (cb, Z.max ce e)). cbn [fst snd] in IH.
      apply IH; [lia|assumption].
    + rewrite covered_lines_cons. cbn [fst snd].
      specialize (IH (b, e)). cbn [fst snd] in IH.
      specialize (IH Hbe Hall). lia.
Qed.

Lemma filter_length_ext {A : Type} (P Q : A -> Prop)
    `{!forall x, Decision (P x)} `{!forall x, Decision (Q x)} (l : list A) :
  (forall x, x ∈ l -> (P x <-> Q x)) ->
  length (filter P l) = length (filter Q l).
Proof.
  induction l as [|a l IH]; intros Hext; [reflexivity|].
  rewrite !filter_cons.
  assert (Ha : P a <-> Q a) by (apply Hext; now left).
  assert (IH' : length (filter P l) = length (filter Q l)).
  { apply IH. intros x Hx. apply Hext. now right. }
  destruct (decide (P a)), (decide (Q a)); cbn; try tauto; lia.
Qed.

Lemma filter_length_all {A : Type} (P : A -> Prop)
    `{!forall x, Decision (P x)} (l : list A) :
  (forall x, x ∈ l -> P x) -> length (filter P l) = length l.
Proof.
  induction l as [|a l IH]; intros Hall; [reflexivity|].
  rewrite filter_cons, decide_True by (apply Hall; now left).
  cbn. f_equal. apply IH. intros x Hx. apply Hall. now right.
Qed.

Lemma filter_length_none {A : Type} (P : A -> Prop)
    `{!forall x, Decision (P x)} (l : list A) :
  (forall x, x ∈ l -> ~ P x) -> length (filter P l) = 0%nat.
Proof.
  induction l as [|a l IH]; intros Hall; [reflexivity|].
  rewrite filter_cons, decide_False by (apply Hall; now left).
  apply IH. intros x Hx. apply Hall. now right.
Qed.

(** Intervals that are apart and not empty ascend. *)
Lemma separated_after (i : Z * Z) (l : list (Z * Z)) :
  separated (i :: l) -> Forall (fun r => fst r <= snd r) l ->
  Forall (fun r => snd i + 1 < fst r) l.
Proof.
  revert i. induction l as [|j l IH]; intros i Hs Hne; [constructor|].
  destruct Hs as [Hgap Hs].
  apply Forall_cons in Hne as [Hj Hne].
  constructor; [exact Hgap|].
  eapply Forall_impl; [apply (IH j Hs Hne)|].
  cbn. intros r Hr. lia.
Qed.

Lemma count_intervals (l : list (Z * Z)) :
  forall lo n,
    0 <= n ->
    separated l ->
    Forall (fun r => fst r <= snd r) l ->
    Forall (fun r => lo <= fst r /\ snd r < lo + n) l ->
    Z.of_nat (length (filter (fun x => Exists (in_interval x) l)
                             (seqZ lo n)))
    = Spec.covered_lines l.
Proof.
  induction l as [|[b e] l IH]; intros lo n Hn Hs Hne Hin.
  - rewrite filter_length_none; [reflexivity|].
    intros x _ H. now apply Exists_nil in H.
  - pose proof (separated_after _ _ Hs (Forall_inv_tail Hne)) as Hafter.
    apply Forall_cons in Hne as [Hbe Hne].
    apply Forall_cons in Hin as [[Hlo Hhi] Hin].
    destruct Hs as [_ Hs]. cbn [fst snd] in *.
    replace n with ((b - lo) + ((e + 1 - b) + (lo + n - (e + 1)))) by lia.
    rewrite seqZ_app by lia. rewrite seqZ_app by lia.
    rewrite !filter_app, !length_app, !Nat2Z.inj_add.
    rewrite covered_lines_cons. cbn [fst snd].
    rewrite (filter_length_none _ (seqZ lo (b - lo))).
    2: { intros x Hx H. apply elem_of_seqZ in Hx.
         apply Exists_cons in H as [H|H].
         - unfold in_interval in H. cbn in H. lia.
         - rewrite Forall_forall in Hafter. apply Exists_exists in H.
           destruct H as (r & Hr & Hxr).
           specialize (Hafter r Hr). unfold in_interval in Hxr. lia. }
    rewrite (filter_length_all _ (seqZ (lo + (b - lo)) (e + 1 - b))).
    2: { intros x Hx. apply elem_of_seqZ in Hx. apply Exists_cons. left.
         unfold in_interval. cbn. lia. }
    rewrite length_seqZ.
    replace (lo + (b - lo) + (e + 1 - b)) with (e + 1) by lia.
    rewrite (filter_length_ext _ (fun x => Exists (in_interval x) l)).
    2: { intros x Hx. apply elem_of_seqZ in Hx. rewrite Exists_cons.
         unfold in_interval at 1. cbn. split; [intros [H|H]|]; auto. lia. }
    rewrite (IH (e + 1) (lo + n - (e + 1))); [lia|lia|assumption|assumption|].
    rewrite Forall_forall in Hafter, Hin. apply Forall_forall.
    intros r Hr. specialize (Hafter r Hr). specialize (Hin r Hr). lia.
Qed.

Lemma merge_from_within (lo hi : Z) (ranges : list (Z * Z)) :
  forall current,
    lo <= fst current /\ snd current < hi ->
    Forall (fun r => lo <= fst r /\ snd r < hi) ranges ->
    Forall (fun r => lo <= fst r /\ snd r < hi)
           (Spec.merge_from current ranges).
Proof.
  induction ranges as [|[b e] ranges IH]; intros [cb ce] Hc Hall;
    cbn [fst snd] in *.
  - repeat constructor; cbn; lia.
  - apply Forall_cons in Hall as [Hbe Hall]. cbn [fst snd] in Hbe.
    cbn [Spec.merge_from fst snd]. destruct (b <=? ce + 1).
    + apply IH; [cbn; lia|assumption].
    + constructor; [cbn; lia|]. now apply IH.
Qed.

Lemma process_model_coverage tokens total h info :
  process_model tokens (ParseContext_init total) = inr (h, info) ->
  exists c,
    process_parts (heap_of tokens) (ParseContext_init total) (refs_of tokens)
    = inr (h, c)
    /\ marker_stack c = []
    /\ markers info = Some (ctx_markers c)
    /\ ng_lines_total info = total
    /\ ng_lines_covered info
       = Spec.covered_lines
           (Spec.merge (Spec.covered_ranges h (ctx_markers c))).
Proof.
  unfold process_model.
  destruct (process_parts _ _ _) as [e|[h1 c1]] eqn:Hrun; [discriminate|].
  pose proof (invariant_tokens _ _ _ _ Hrun) as Hinv.
  pose proof (trace_tokens _ _ _ _ Hrun) as Htr.
  pose proof (process_parts_lines_total _ _ _ _ _ Hrun) as Htotal.
  cbn in Htotal.
  unfold source_file_traceability_info_processor.
  destruct (marker_stack c1) as [|top rest] eqn:Hstack; [|discriminate].
  cbn [length Nat.ltb Nat.leb].
  rewrite merge_markers_fold by (eapply matched_markers_resolved; eauto).
  rewrite fold_merge_range_nil, count_coverage_sum.
  unfold set_coverage_stats.
  destruct (coverage_percentage _ _) as [e|cov]; [discriminate|].
  intros [= <- <-]. exists c1. repeat split; assumption.
Qed.

Lemma covered_range_of h0 k h c closed r b e :
  Spec.invariant h0 k h c closed ->
  trace_invariant h0 h c closed ->
  marker_stack c = [] ->
  r ∈ ctx_markers c ->
  Spec.covered_range (h !!! r) = Some (b, e) ->
  b = line_of h0 r
  /\ exists j, (r <= j)%nat /\ (j < k)%nat /\ e = line_of h0 j.
Proof.
  intros Hinv Htr Hstack Hr Hcov.
  pose proof (inv_frozen _ _ _ _ _ Hinv r) as Hf.
  pose proof (inv_markers_lt _ _ _ _ _ Hinv r Hr) as Hrk.
  unfold Spec.covered_range in Hcov.
  destruct (ng_is_nodoc (h !!! r)); [discriminate|].
  destruct (is_begin (h !!! r)) eqn:Hb; [|discriminate].
  destruct (class (h0 !!! r)) as [[|]|] eqn:Hc.
  - destruct (inv_begin_closed _ _ _ _ _ Hinv r Hr Hc)
      as (j & Hrj & Hj & H1 & H2).
    { rewrite Hstack. apply not_elem_of_nil. }
    rewrite H1, H2 in Hcov. injection Hcov as <- <-.
    split; [reflexivity|]. exists j. repeat split; lia.
  - unfold is_begin in Hb. rewrite (same_class _ _ Hf), Hc in Hb.
    discriminate.
  - destruct (inv_line_marker _ _ _ _ Htr r Hr Hc) as [H1 H2].
    rewrite H1, H2 in Hcov. injection Hcov as <- <-.
    split; [reflexivity|]. exists r. repeat split; lia.
Qed.

Lemma covered_ranges_cons (h : heap) (r : ref) (ms : list ref) :
  Spec.covered_ranges h (r :: ms)
  = match Spec.covered_range (h !!! r) with
    | Some i => i :: Spec.covered_ranges h ms
    | None => Spec.covered_ranges h ms
    end.
Proof. reflexivity. Qed.

Lemma covered_ranges_elem (h : heap) (ms : list ref) (i : Z * Z) :
  i ∈ Spec.covered_ranges h ms ->
  exists r, r ∈ ms /\ Spec.covered_range (h !!! r) = Some i.
Proof.
  unfold Spec.covered_ranges. intros Hi.
  apply list_elem_of_omap in Hi. exact Hi.
Qed.

Lemma covered_ranges_sorted (h : heap) (line : ref -> Z) (ms : list ref) :
  StronglySorted lt ms ->
  (forall r r', r ∈ ms -> r' ∈ ms -> (r < r')%nat -> line r <= line r') ->
  (forall r i, r ∈ ms -> Spec.covered_range (h !!! r) = Some i ->
               fst i = line r) ->
  StronglySorted (fun p q => fst p <= fst q) (Spec.covered_ranges h ms).
Proof.
  induction 1 as [|r ms Hs IH Hall]; intros Hline Hfst; [constructor|].
  rewrite covered_ranges_cons.
  assert (IH' : StronglySorted (fun p q => fst p <= fst q)
                  (Spec.covered_ranges h ms)).
  { apply IH.
    - intros a a' Ha Ha'. apply Hline; now right.
    - intros a i Ha. apply Hfst. now right. }
  destruct (Spec.covered_range (h !!! r)) as [i|] eqn:Hi; [|exact IH'].
  constructor; [exact IH'|].
  apply Forall_forall. intros q Hq.
  destruct (covered_ranges_elem _ _ _ Hq) as (r' & Hr' & Hq').
  rewrite (Hfst r i (list_elem_of_here _ _) Hi).
  rewrite (Hfst r' q (list_elem_of_further _ _ _ Hr') Hq').
  rewrite Forall_forall in Hall.
  apply Hline; [now left|now right|now apply Hall].
Qed.

Lemma token_line_bounds (tokens : list Marker) (total : Z) (r : ref) :
  Forall (fun m => 1 <= loc_line (get_location m) <= total) tokens ->
  (r < length tokens)%nat ->
  1 <= line_of (heap_of tokens) r <= total.
Proof.
  intros Hall Hr. rewrite Forall_forall in Hall. apply Hall.
  unfold line_of. eapply list_elem_of_lookup_2. now apply heap_of_token.
Qed.

(** X9: when the tokens come in file order and their lines lie between
    1 and the number of lines of the file, the covered-line count of a
    successful parse is the number of lines of the file that lie in the
    range of an accepted marker that counts for the coverage; so it lies
    between 0 and the total, which is stored unchanged. *)
Theorem covered_lines_are_counted_once
    (tokens : list Marker) (total : Z)
    (h : heap) (info : SourceFileTraceabilityInfo) :
  0 <= total ->
  lines_ascending tokens ->
  Forall (fun m => 1 <= loc_line (get_location m) <= total) tokens ->
  process_model tokens (ParseContext_init total) = inr (h, info) ->
  exists ms,
    markers info = Some ms
    /\ ng_lines_total info = total
    /\ ng_lines_covered info
       = Z.of_nat (count_covered h ms 1 (Z.to_nat total))
    /\ 0 <= ng_lines_covered info <= total.
Proof.
  intros Htotal Hasc Hbounds Hmodel.
  destruct (process_model_coverage _ _ _ _ Hmodel)
    as (c & Hrun & Hstack & Hmarkers & Hlt & Hcov).
  pose proof (invariant_tokens _ _ _ _ Hrun) as Hinv.
  pose proof (trace_tokens _ _ _ _ Hrun) as Htr.
  set (ms := ctx_markers c) in *.
  set (ranges := Spec.covered_ranges h ms) in *.
  assert (Hrange : forall i, i ∈ ranges ->
             1 <= fst i /\ fst i <= snd i /\ snd i < 1 + total).
  { intros [b e] Hi.
    destruct (covered_ranges_elem _ _ _ Hi) as (r & Hr & Hri).
    destruct (covered_range_of _ _ _ _ _ _ _ _ Hinv Htr Hstack Hr Hri)
      as (-> & j & Hrj & Hj & ->).
    pose proof (inv_markers_lt _ _ _ _ _ Hinv r Hr) as Hrk.
    pose proof (token_line_bounds _ _ r Hbounds Hrk).
    pose proof (token_line_bounds _ _ j Hbounds Hj).
    cbn [fst snd]. repeat split; try lia.
    destruct (decide (r = j)) as [->|Hne]; [lia|].
    apply lines_ascending_le; [assumption|lia|assumption]. }
  assert (Hsorted : StronglySorted (fun p q => fst p <= fst q) ranges).
  { apply (covered_ranges_sorted h (line_of (heap_of tokens))).
    - apply (inv_markers_sorted _ _ _ _ Htr).
    - intros r r' Hr Hr' Hlt'. apply lines_ascending_le; [assumption..|].
      exact (inv_markers_lt _ _ _ _ _ Hinv r' Hr').
    - intros r [b e] Hr Hri.
      now destruct (covered_range_of _ _ _ _ _ _ _ _
                      Hinv Htr Hstack Hr Hri) as (-> & _). }
  assert (Hcount : Z.of_nat (count_covered h ms 1 (Z.to_nat total))
                   = Spec.covered_lines (Spec.merge ranges)).
  { unfold count_covered. rewrite Z2Nat.id by assumption.
    rewrite (filter_length_ext _
               (fun x => Exists (in_interval x) (Spec.merge ranges))).
    2: { intros x _. unfold covered_by. fold ranges.
         rewrite <- merge_all_merge.
         destruct ranges as [|i l]; [reflexivity|].
         rewrite merge_all_merge. cbn [Spec.merge].
         apply StronglySorted_inv in Hsorted as [Hs Hn].
         rewrite merge_from_union by assumption.
         now rewrite Exists_cons. }
    destruct ranges as [|i l] eqn:Hranges.
    { cbn [Spec.merge]. apply count_intervals; [assumption|exact I|
                                                 constructor|constructor]. }
    cbn [Spec.merge].
    assert (Hi := Hrange i (list_elem_of_here _ _)).
    assert (Hl : forall q, q ∈ l ->
               1 <= fst q /\ fst q <= snd q /\ snd q < 1 + total).
    { intros q Hq. apply Hrange. now right. }
    apply count_intervals; [assumption| | |].
    - apply merge_from_separated.
    - apply merge_from_nonempty; [lia|].
      apply Forall_forall. intros q Hq. specialize (Hl q Hq). lia.
    - apply merge_from_within; [lia|].
      apply Forall_forall. intros q Hq. specialize (Hl q Hq). lia. }
  exists ms. split; [assumption|]. split; [assumption|].
  rewrite Hcov, <- Hcount. split; [reflexivity|].
  split; [lia|].
  unfold count_covered.
  pose proof (length_filter (covered_by h ms)
                (seqZ 1 (Z.of_nat (Z.to_nat total)))) as Hle.
  rewrite length_seqZ in Hle. lia.
Qed.

Lemma mixed_bounds :
  Forall (fun m => 1 <= loc_line (get_location m) <= 10) MoreSamples.mixed.
Proof. repeat constructor; cbn; lia. Qed.

Lemma covered_lines_are_counted_once_witness :
  0 <= ng_lines_covered (Samples.parsed_info MoreSamples.mixed 10) <= 10.
Proof.
  assert (H10 : 0 <= 10) by lia.
  destruct (covered_lines_are_counted_once _ _ _ _
              H10 mixed_ascending mixed_bounds mixed_parsed)
    as (ms & _ & _ & _ & H).
  exact H.
Defined.

(** ** Nodoc END markers *)

(** X10: a nodoc END marker closes a nodoc BEGIN marker only.  On a
    nodoc BEGIN at the top of the stack it pops the stack and leaves the
    heap, the output list and the index as they are; on an ordinary
    marker at the top it raises the BEGIN/END mismatch error with the ids
    of that marker and its own, at its own location. *)
Theorem nodoc_end_closes_nodoc_begin_only
    (h : heap) (parse_context : ParseContext) (marker top : ref)
    (rest : list ref) :
  ng_is_nodoc (h !!! marker) = true ->
  is_end (h !!! marker) = true ->
  marker_stack parse_context = rest ++ [top] ->
  is_end (h !!! top) = false ->
  let result := range_marker_processor marker h parse_context in
  (ng_is_nodoc (h !!! top) = true ->
   result
   = inr (h, mkParseContext (lines_total parse_context)
               (ctx_markers parse_context) rest
               (map_reqs_to_markers parse_context)))
  /\ (ng_is_nodoc (h !!! top) = false ->
      result
      = inl (SemanticError
               (create_begin_end_range_reqs_mismatch_error
                  (get_location (h !!! marker))
                  (reqs (h !!! top)) (reqs (h !!! marker))))).
Proof.
  intros Hn He Hstack Htop. cbv zeta.
  rewrite range_nodoc_end by assumption.
  rewrite Hstack, pop_snoc, Htop.
  split; intros ->; reflexivity.
Qed.

Lemma nodoc_end_closes_nodoc_begin_only_witness :
  let h := heap_of [Samples.range_begin ["REQ-1"] 2; Samples.nodoc_end 3] in
  range_marker_processor 1%nat h (mkParseContext 10 [0%nat] [0%nat] ∅)
  = inl (SemanticError
           (create_begin_end_range_reqs_mismatch_error
              (Samples.at_line 3) ["REQ-1"] [])).
Proof.
  exact (proj2 (nodoc_end_closes_nodoc_begin_only
                  (heap_of [Samples.range_begin ["REQ-1"] 2;
                            Samples.nodoc_end 3])
                  (mkParseContext 10 [0%nat] [0%nat] ∅)
                  1%nat 0%nat [] eq_refl eq_refl eq_refl eq_refl)
               eq_refl).
Defined.

(** ** A text without markers *)

(** X11: for a text that is not empty and in which the scanner finds no
    marker, [read] returns an empty output list, an empty index, no
    covered line and a coverage of 0.0 when the line count is positive;
    when the line count is zero the division of [set_coverage_stats]
    raises [ZeroDivisionError]. *)
Theorem read_without_markers
    (scan : string -> option string -> error + list Marker)
    (get_lines_count : string -> Z)
    (input_string : string) (file_path : option string) :
  input_string <> "" ->
  scan input_string file_path = inr [] ->
  let total := get_lines_count input_string in
  (0 < total ->
   exists h info,
     read scan get_lines_count input_string file_path = inr (h, info)
     /\ markers info = Some []
     /\ ng_map_reqs_to_markers info = Some ∅
     /\ ng_lines_total info = total
     /\ ng_lines_covered info = 0
     /\ get_coverage info = Float (S754_zero false))
  /\ (total = 0 ->
      read scan get_lines_count input_string file_path
      = inl ZeroDivisionError).
Proof.
  intros Hne Hscan total. unfold read.
  destruct input_string as [|a s]; [contradiction|].
  cbn [String.length Nat.eqb]. rewrite Hscan. fold total.
  split.
  - intros Hpos. destruct total as [|p|p]; try lia.
    eexists _, _. split; [reflexivity|]. repeat split.
  - intros ->. reflexivity.
Qed.

Lemma read_without_markers_witness :
  read (fun _ _ => inr []) (fun _ => 0) "plain text" None
  = inl ZeroDivisionError.
Proof.
  refine (proj2 (read_without_markers (fun _ _ => inr []) (fun _ => 0)
                   "plain text" None _ eq_refl) eq_refl).
  discriminate.
Defined.

(** ** Requirement statements *)

Section RequirementStatements.

Variables Node Reference SpecialField Comment Child E : Type.

Abbreviation Requirement' :=
  (RequirementModel.Requirement Node Reference SpecialField Comment Child).

Abbreviation switch :=
  (@RequirementMethods.switch_to_multiline_statement
     Node Reference SpecialField Comment Child E).

Abbreviation get_statement :=
  (@RequirementMethods.get_statement_single_or_multiline
     Node Reference SpecialField Comment Child).

Lemma truthy_rstrip_or_none (x : option string) :
  RequirementModel.rstrip_or_none x = None <-> Py.truthy x = false.
Proof.
  unfold RequirementModel.rstrip_or_none.
  destruct (Py.truthy x) eqn:Hx; [|tauto].
  destruct x; [|discriminate]. cbn. split; discriminate.
Qed.

(** X12: [switch_to_multiline_statement] keeps what
    [get_statement_single_or_multiline] returns, leaves no single-line
    statement behind, and a second call changes nothing.  It fails, with
    the [AssertionError] of its assertion, exactly when the requirement
    has a non-empty statement and a multiline statement that is not
    [None]; for a requirement as the constructor builds it that is when
    a non-empty statement and a non-empty multiline statement were
    given, be it whitespace only. *)
Theorem switch_to_multiline_keeps_statement (self : Requirement') :
  (forall r,
     switch self = inr r ->
     get_statement r = get_statement self
     /\ Py.truthy (RequirementModel.statement _ _ _ _ _ r) = false
     /\ switch r = inr r
     /\ RequirementModel.uid r = RequirementModel.uid self)
  /\ (switch self = inl Py.AssertionError
      <-> Py.truthy (RequirementModel.statement _ _ _ _ _ self) = true
          /\ RequirementModel.statement_multiline _ _ _ _ _ self <> None)
  /\ (forall parent requirement_type statement statement_multiline uid
             level status tags references title body rationale
             rationale_multiline comments special_fields requirements,
        RequirementModel.Requirement_init (E := E)
          parent requirement_type statement statement_multiline uid
          level status tags references title body rationale
          rationale_multiline comments special_fields requirements
        = inr self ->
        (switch self = inl Py.AssertionError
         <-> Py.truthy statement = true
             /\ Py.truthy statement_multiline = true)).
Proof.
  assert (Hfail : switch self = inl Py.AssertionError
            <-> Py.truthy (RequirementModel.statement _ _ _ _ _ self) = true
                /\ RequirementModel.statement_multiline _ _ _ _ _ self
                   <> None).
  { unfold RequirementMethods.switch_to_multiline_statement.
    destruct (Py.truthy (RequirementModel.statement _ _ _ _ _ self));
      [|split; [discriminate|intros [? _]; discriminate]].
    destruct (RequirementModel.statement_multiline _ _ _ _ _ self).
    - split; [intros _; split; [reflexivity|discriminate]|reflexivity].
    - split; [discriminate|]. intros [_ H]. now elim H. }
  split; [|split; [exact Hfail|]].
  - intros r.
    unfold RequirementMethods.switch_to_multiline_statement,
      RequirementMethods.get_statement_single_or_multiline.
    destruct (Py.truthy (RequirementModel.statement _ _ _ _ _ self)) eqn:Hs.
    + destruct (RequirementModel.statement_multiline _ _ _ _ _ self);
        [discriminate|].
      intros [= <-]. cbn. rewrite Hs. repeat split.
    + intros [= <-]. rewrite Hs. repeat split.
  - intros parent requirement_type statement statement_multiline uid
      level status tags references title body rationale
      rationale_multiline comments special_fields requirements Hinit.
    unfold RequirementModel.Requirement_init in Hinit.
    destruct parent as [parent|]; [|discriminate].
    injection Hinit as Hself. rewrite Hfail. subst self.
    cbn [RequirementModel.statement RequirementModel.statement_multiline].
    pose proof (truthy_rstrip_or_none statement_multiline) as Hr.
    split; intros [H1 H2]; (split; [exact H1|]).
    + destruct (Py.truthy statement_multiline); [reflexivity|].
      elim H2. now apply Hr.
    + intros Hnone. apply Hr in Hnone. congruence.
Qed.

(** X13: the constructor strips trailing whitespace from the three
    multiline fields: each is [None] exactly when its argument is [None]
    or empty, and otherwise the argument without its trailing
    whitespace, which ends in no whitespace character and is the empty
    string when the argument is whitespace only. *)
Theorem multiline_fields_are_rstripped
    (self : Requirement') parent requirement_type statement
    statement_multiline uid level status tags references title body
    rationale rationale_multiline comments special_fields requirements :
  RequirementModel.Requirement_init (E := E)
    parent requirement_type statement statement_multiline uid
    level status tags references title body rationale
    rationale_multiline comments special_fields requirements
  = inr self ->
  let stripped (argument field : option string) :=
    (field = None <-> Py.truthy argument = false)
    /\ (forall s, argument = Some s -> s <> "" ->
          field = Some (Py.rstrip s))
    /\ (forall s c, field = Some s -> Py.last_char s = Some c ->
          Py.isspace c = false) in
  stripped statement_multiline
    (RequirementModel.statement_multiline _ _ _ _ _ self)
  /\ stripped body (RequirementModel.body _ _ _ _ _ self)
  /\ stripped rationale_multiline
       (RequirementModel.rationale_multiline _ _ _ _ _ self).
Proof.
  intros Hinit. unfold RequirementModel.Requirement_init in Hinit.
  destruct parent as [parent|]; [|discriminate].
  injection Hinit as <-. cbn.
  assert (H : forall x,
             (RequirementModel.rstrip_or_none x = None
              <-> Py.truthy x = false)
             /\ (forall s, x = Some s -> s <> "" ->
                   RequirementModel.rstrip_or_none x = Some (Py.rstrip s))
             /\ (forall s c, RequirementModel.rstrip_or_none x = Some s ->
                   Py.last_char s = Some c -> Py.isspace c = false)).
  { intros x. split; [apply truthy_rstrip_or_none|]. split.
    - intros s -> Hs. unfold RequirementModel.rstrip_or_none.
      destruct s; [now elim Hs|reflexivity].
    - intros s c. unfold RequirementModel.rstrip_or_none.
      destruct (Py.truthy x); [|discriminate].
      destruct x as [y|]; [|discriminate]. cbn. intros [= <-].
      apply rstrip_last. }
  repeat split; apply H.
Qed.

End RequirementStatements.

Lemma switch_to_multiline_keeps_statement_witness :
  exists r,
    RequirementModel.Requirement_init
      (Node := unit) (Reference := unit) (SpecialField := unit)
      (Comment := unit) (Child := unit) (E := unit)
      (Some tt) "REQUIREMENT" (Some "text") (Some "  ") (Py.VStr "A-1")
      None None None [] None None None None [] [] None = inr r
    /\ RequirementMethods.switch_to_multiline_statement (E := unit) r
       = inl Py.AssertionError.
Proof.
  eexists. split; [reflexivity|].
  apply (proj2 (proj2 (switch_to_multiline_keeps_statement
                         unit unit unit unit unit unit _))
           (Some tt) "REQUIREMENT" (Some "text") (Some "  ") (Py.VStr "A-1")
           None None None [] None None None None [] [] None eq_refl).
  split; reflexivity.
Defined.

Lemma multiline_fields_are_rstripped_witness :
  exists r,
    RequirementModel.Requirement_init
      (Node := unit) (Reference := unit) (SpecialField := unit)
      (Comment := unit) (Child := unit) (E := unit)
      (Some tt) "REQUIREMENT" None (Some "shall bar  ") (Py.VStr "A-1")
      None None None [] None None None None [] [] None = inr r
    /\ RequirementModel.statement_multiline _ _ _ _ _ r = Some "shall bar".
Proof.
  eexists. split; [reflexivity|].
  apply (proj1 (proj2 (proj1 (multiline_fields_are_rstripped
                   unit unit unit unit unit unit _
                   (Some tt) "REQUIREMENT" None (Some "shall bar  ")
                   (Py.VStr "A-1")
                   None None None [] None None None None [] [] None
                   eq_refl))) "shall bar  " eq_refl).
  discriminate.
Defined.

(** ** Nodoc blocks *)

Lemma stack_all_ordinary h0 k h c closed blocks :
  Spec.invariant h0 k h c closed ->
  nodoc_invariant h0 k c blocks ->
  top_is_nodoc h c = false ->
  Forall (fun r => ng_is_nodoc (h0 !!! r) = false) (marker_stack c).
Proof.
  intros Hinv Hnd Ht.
  destruct (inv_stack_shape _ _ _ _ Hnd) as (ord & nod & Hs & Hord & Hnod).
  destruct nod as [|t nod _] using rev_ind.
  - rewrite Hs, app_nil_r. exact Hord.
  - exfalso. rewrite app_assoc in Hs.
    rewrite (top_is_nodoc_snoc _ _ _ _ Hs) in Ht.
    apply Forall_app in Hnod as [_ Hnod]. apply Forall_inv in Hnod.
    rewrite (same_nodoc _ _ (inv_frozen _ _ _ _ _ Hinv t)) in Ht.
    congruence.
Qed.

Lemma nodoc_skip h0 k c blocks :
  nodoc_invariant h0 k c blocks -> nodoc_invariant h0 (S k) c blocks.
Proof.
  intros []. split; try assumption.
  intros p Hp. destruct (inv_block_markers0 p Hp) as (? & ? & ?).
  repeat split; try tauto; lia.
Qed.

Lemma nodoc_accept h0 k h c closed blocks stack' index :
  Spec.invariant h0 k h c closed ->
  nodoc_invariant h0 k c blocks ->
  top_is_nodoc h c = false ->
  Forall (fun r => ng_is_nodoc (h0 !!! r) = false) stack' ->
  nodoc_invariant h0 (S k)
    (mkParseContext (lines_total c) (ctx_markers c ++ [k]) stack' index)
    blocks.
Proof.
  intros Hinv Hnd Ht Hord. pose proof Hnd as [].
  split; cbn [ctx_markers marker_stack].
  - exists stack', []. rewrite app_nil_r. repeat split; auto.
  - intros r b _ Hb Hn. rewrite Forall_forall in Hord.
    rewrite (Hord b Hb) in Hn. discriminate.
  - intros p r Hp Hr. elems; [auto|].
    right. now destruct (inv_block_markers0 p Hp) as (_ & ? & _).
  - intros p Hp. destruct (inv_block_markers0 p Hp) as (? & ? & ?).
    repeat split; try tauto; lia.
Qed.

Lemma nodoc_push h0 k h c closed blocks :
  Spec.invariant h0 k h c closed ->
  nodoc_invariant h0 k c blocks ->
  ng_is_nodoc (h0 !!! k) = true ->
  nodoc_invariant h0 (S k) (with_stack c (marker_stack c ++ [k])) blocks.
Proof.
  intros Hinv [] Hn.
  split; cbn [with_stack ctx_markers marker_stack].
  - destruct inv_stack_shape0 as (ord & nod & Hs & Hord & Hnod).
    exists ord, (nod ++ [k]). rewrite Hs, app_assoc.
    repeat split; auto. apply Forall_app. split; [assumption|].
    now repeat constructor.
  - intros r b Hr Hb Hnb. elems; [eauto|].
    exact (inv_markers_lt _ _ _ _ _ Hinv r Hr).
  - assumption.
  - intros p Hp. destruct (inv_block_markers0 p Hp) as (? & ? & ?).
    repeat split; try tauto; lia.
Qed.

Lemma nodoc_pop h0 k h c closed blocks rest top :
  Spec.invariant h0 k h c closed ->
  nodoc_invariant h0 k c blocks ->
  marker_stack c = rest ++ [top] ->
  ng_is_nodoc (h0 !!! top) = true ->
  ng_is_nodoc (h0 !!! k) = true ->
  class (h0 !!! k) = RangeMarker EndFlag ->
  nodoc_invariant h0 (S k) (with_stack c rest) (blocks ++ [(top, k)]).
Proof.
  intros Hinv [] Hstack Htop Hn Hc.
  assert (Hin : top ∈ marker_stack c).
  { rewrite Hstack. apply elem_of_app. right. now left. }
  split; cbn [with_stack ctx_markers marker_stack].
  - destruct inv_stack_shape0 as (ord & nod & Hs & Hord & Hnod).
    destruct nod as [|t nod _] using rev_ind.
    + exfalso. rewrite app_nil_r in Hs. rewrite Hs in Hin.
      rewrite Forall_forall in Hord. rewrite (Hord top Hin) in Htop.
      discriminate.
    + rewrite Hstack, app_assoc in Hs. apply app_inj_tail in Hs as [-> _].
      exists ord, nod. repeat split; [assumption|].
      now apply Forall_app in Hnod as [Hnod _].
  - intros r b Hr Hb. apply inv_open_block0; [assumption|].
    rewrite Hstack. apply elem_of_app. now left.
  - intros p r Hp Hr. apply elem_of_app in Hp as [Hp|Hp]; [auto|].
    apply list_elem_of_singleton in Hp. subst p. left. cbn.
    now apply inv_open_block0.
  - intros p Hp. apply elem_of_app in Hp as [Hp|Hp].
    + destruct (inv_block_markers0 p Hp) as (? & ? & ?).
      repeat split; try tauto; lia.
    + apply list_elem_of_singleton in Hp. subst p. cbn [fst snd].
      pose proof (inv_stack_lt _ _ _ _ _ Hinv top Hin).
      pose proof (inv_stack_begin _ _ _ _ _ Hinv top Hin).
      repeat split; auto.
Qed.

Lemma nodoc_closing_ordinary h c k :
  ng_is_nodoc (h !!! k) = false -> nodoc_closing h c k = [].
Proof. intros H. unfold nodoc_closing. now rewrite H. Qed.

Lemma nodoc_closing_not_end h c k :
  is_end (h !!! k) = false -> nodoc_closing h c k = [].
Proof. intros H. unfold nodoc_closing. now rewrite H, andb_false_r. Qed.

Lemma nodoc_step h0 k h c closed blocks h' c' :
  Spec.invariant h0 k h c closed ->
  nodoc_invariant h0 k c blocks ->
  process_part h c k = inr (h', c') ->
  nodoc_invariant h0 (S k) c' (blocks ++ nodoc_closing h c k).
Proof.
  intros Hinv Hnd Hstep.
  destruct (inv_frozen _ _ _ _ _ Hinv k) as [Hc Hr Hn _].
  unfold process_part in Hstep.
  destruct (class (h !!! k)) as [[|]|] eqn:Hclass.
  - assert (Hb : is_begin (h !!! k) = true)
      by (unfold is_begin; now rewrite Hclass).
    assert (He : is_end (h !!! k) = false)
      by (unfold is_end; now rewrite Hclass).
    rewrite (nodoc_closing_not_end _ _ _ He), app_nil_r.
    destruct (ng_is_nodoc (h !!! k)) eqn:Hnodoc.
    + rewrite range_nodoc_begin in Hstep by assumption.
      injection Hstep as <- <-. now apply (nodoc_push _ _ h _ closed).
    + destruct (top_is_nodoc h c) eqn:Ht.
      * rewrite range_suppressed in Hstep by assumption.
        injection Hstep as <- <-. now apply nodoc_skip.
      * rewrite range_begin in Hstep by assumption.
        injection Hstep as <- <-.
        apply (nodoc_accept _ _ h _ closed); try assumption.
        apply Forall_app. split.
        -- now apply (stack_all_ordinary _ k h _ closed blocks).
        -- repeat constructor. congruence.
  - assert (He : is_end (h !!! k) = true)
      by (unfold is_end; now rewrite Hclass).
    destruct (ng_is_nodoc (h !!! k)) eqn:Hnodoc.
    + rewrite range_nodoc_end in Hstep by assumption.
      destruct (pop (marker_stack c)) as [[top rest]|] eqn:Hpop;
        [|discriminate].
      apply pop_Some in Hpop.
      destruct (ng_is_nodoc (h !!! top)) eqn:Htop; [|discriminate].
      destruct (is_end (h !!! top)); [discriminate|].
      injection Hstep as <- <-.
      unfold nodoc_closing. rewrite Hnodoc, He, Hpop, last_snoc.
      cbn [andb].
      apply (nodoc_pop _ _ h _ closed); try assumption; try congruence.
      now rewrite <- (same_nodoc _ _ (inv_frozen _ _ _ _ _ Hinv top)).
    + rewrite (nodoc_closing_ordinary _ _ _ Hnodoc), app_nil_r.
      destruct (top_is_nodoc h c) eqn:Ht.
      * rewrite range_suppressed in Hstep by assumption.
        injection Hstep as <- <-. now apply nodoc_skip.
      * rewrite range_end in Hstep by assumption.
        destruct (pop (marker_stack c)) as [[top rest]|] eqn:Hpop;
          [|discriminate].
        apply pop_Some in Hpop.
        case_bool_decide as Hreqs; [discriminate|].
        injection Hstep as <- <-.
        apply (nodoc_accept _ _ h _ closed); try assumption.
        pose proof (stack_all_ordinary _ _ _ _ _ _ Hinv Hnd Ht) as Hall.
        rewrite Hpop in Hall. now apply Forall_app in Hall as [Hall _].
  - assert (He : is_end (h !!! k) = false)
      by (unfold is_end; now rewrite Hclass).
    rewrite (nodoc_closing_not_end _ _ _ He), app_nil_r.
    destruct (top_is_nodoc h c) eqn:Ht.
    + rewrite line_suppressed in Hstep by assumption.
      injection Hstep as <- <-. now apply nodoc_skip.
    + rewrite line_accepted in Hstep by assumption.
      injection Hstep as <- <-.
      apply (nodoc_accept _ _ h _ closed); try assumption.
      now apply (stack_all_ordinary _ k h _ closed blocks).
Qed.

Lemma nodoc_run h0 m :
  forall k h c closed blocks h' c',
    Spec.invariant h0 k h c closed ->
    nodoc_invariant h0 k c blocks ->
    process_parts h c (seq k m) = inr (h', c') ->
    nodoc_invariant h0 (k + m) c'
      (blocks ++ nodoc_closings h c (seq k m)).
Proof.
  induction m as [|m IH]; intros k h c closed blocks h' c' Hinv Hnd Hrun.
  - cbn in *. injection Hrun as <- <-.
    now rewrite Nat.add_0_r, app_nil_r.
  - cbn [seq process_parts nodoc_closings] in *.
    destruct (process_part h c k) as [e|[h1 c1]] eqn:Hstep; [discriminate|].
    rewrite app_assoc. replace (k + S m)%nat with (S k + m)%nat by lia.
    apply (IH (S k) h1 c1 (closed ++ closing h c k) _ h' c');
      [| |assumption].
    + now apply invariant_step.
    + now apply (nodoc_step _ _ h _ closed _ h1 c1).
Qed.

Lemma nodoc_init h0 total :
  nodoc_invariant h0 0 (ParseContext_init total) [].
Proof.
  split; cbn.
  - exists [], []. repeat split; constructor.
  - intros r b H. now apply elem_of_nil in H.
  - intros p r H. now apply elem_of_nil in H.
  - intros p H. now apply elem_of_nil in H.
Qed.

(** X14: nothing of a nodoc block reaches the output.  When the tokens
    were processed without error, every nodoc block closed on the way is
    a nodoc BEGIN marker and a later nodoc END marker, and no marker of
    the output list lies between the two; and every marker of the output
    list precedes a nodoc BEGIN marker that is still open. *)
Theorem nodoc_blocks_hide_their_markers
    (tokens : list Marker) (total : Z) (h : heap) (c : ParseContext) :
  process_parts (heap_of tokens) (ParseContext_init total) (refs_of tokens)
  = inr (h, c) ->
  (forall b e,
     nodoc_block tokens total b e ->
     (b < e)%nat
     /\ ng_is_nodoc (h !!! b) = true
     /\ class (h !!! b) = RangeMarker BeginFlag
     /\ ng_is_nodoc (h !!! e) = true
     /\ class (h !!! e) = RangeMarker EndFlag
     /\ forall r, r ∈ ctx_markers c -> (r < b)%nat \/ (e < r)%nat)
  /\ (forall b r,
        b ∈ marker_stack c -> ng_is_nodoc (h !!! b) = true ->
        r ∈ ctx_markers c -> (r < b)%nat).
Proof.
  intros Hrun.
  pose proof (invariant_tokens _ _ _ _ Hrun) as Hinv.
  pose proof (inv_frozen _ _ _ _ _ Hinv) as Hf.
  pose proof (nodoc_run (heap_of tokens) (length tokens) 0%nat
                _ _ [] [] _ _ (invariant_init _ total)
                (nodoc_init _ total) Hrun) as Hnd.
  cbn [app Nat.add] in Hnd.
  split.
  - intros b e Hbe.
    destruct (inv_block_markers _ _ _ _ Hnd _ Hbe)
      as (H1 & _ & H2 & H3 & H4 & H5).
    cbn [fst snd] in *.
    rewrite !(same_nodoc _ _ (Hf _)), !(same_class _ _ (Hf _)).
    repeat split; try assumption.
    intros r Hr. exact (inv_closed_block _ _ _ _ Hnd _ r Hbe Hr).
  - intros b r Hb Hn Hr. rewrite (same_nodoc _ _ (Hf b)) in Hn.
    exact (inv_open_block _ _ _ _ Hnd r b Hr Hb Hn).
Qed.

Lemma nodoc_blocks_hide_their_markers_witness :
  Forall (fun r => (r < 4)%nat \/ (7 < r)%nat)
         (ctx_markers (Samples.context_after MoreSamples.mixed 10)).
Proof.
  apply Forall_forall.
  refine (proj2 (proj2 (proj2 (proj2 (proj2
            (proj1 (nodoc_blocks_hide_their_markers
                      MoreSamples.mixed 10 _ _ mixed_run)
               4%nat 7%nat _)))))).
  unfold nodoc_block. vm_compute. apply list_elem_of_In. cbn. auto.
Defined.
